(** * The obstacle-course game of [play.py]: states, actions, rewards

    A shallow embedding of [src/play.py].  The player stands in a 3x3 frame,
    picks one of five actions per turn, and [State.move] scores the action
    against a window of two grids while pulling fresh grids from the global
    [GAME_MAP].

    Conventions of the embedding:
    - Python integers are [Z]; a location is a pair [(row, col)].
    - A grid ([np.ndarray]) is a list of rows; indexing follows numpy,
      negative indices included, and raises [IndexError] out of range.
    - A slot that may hold [None] is an [option].
    - Exceptions are explicit: a pure method returns a [result]; a method that
      touches the global [GAME_MAP] is a function from the store to a result
      and the store it leaves behind (an exception keeps the store as it was
      when it was raised).
    - A [str] is a string of characters with code points below 256.
    - [print] calls are not modelled. *)

From Stdlib Require Import ZArith List String Ascii Bool Lia Permutation.
From stdpp Require Import base list.
Import ListNotations.
Local Open Scope Z_scope.

(** ** Python runtime: exceptions and the two monads *)

Module Py.

Inductive exn : Type :=
| IndexError
| TypeError
| KeyError
| AssertionError.

Inductive result (A : Type) : Type :=
| Ok (a : A)
| Raise (e : exn).
Arguments Ok {A} a.
Arguments Raise {A} e.

Definition bind {A B} (r : result A) (k : A -> result B) : result B :=
  match r with
  | Ok a => k a
  | Raise e => Raise e
  end.

(** Code that reads or writes a global of type [S]. *)
Definition M (S A : Type) : Type := S -> result A * S.

Definition ret {S A} (a : A) : M S A := fun s => (Ok a, s).
Definition raise {S A} (e : exn) : M S A := fun s => (Raise e, s).
Definition lift {S A} (r : result A) : M S A := fun s => (r, s).
Definition bindM {S A B} (m : M S A) (k : A -> M S B) : M S B :=
  fun s =>
    match m s with
    | (Ok a, s') => k a s'
    | (Raise e, s') => (Raise e, s')
    end.

(** [l[i]] on a Python list, for a literal index [i >= 0]. *)
Definition getitem {A} (l : list A) (i : nat) : result A :=
  match l !! i with
  | Some x => Ok x
  | None => Raise IndexError
  end.

(** One axis of a numpy index: [-n <= i < n], negatives count from the end. *)
Definition np_axis (n i : Z) : option nat :=
  if (0 <=? i) && (i <? n) then Some (Z.to_nat i)
  else if (- n <=? i) && (i <? 0) then Some (Z.to_nat (i + n))
  else None.

Definition np_getitem {A} (l : list A) (i : Z) : result A :=
  match np_axis (Z.of_nat (length l)) i with
  | Some k => getitem l k
  | None => Raise IndexError
  end.

End Py.
Import Py.

Declare Scope py_scope.
Delimit Scope py_scope with py.
Notation "x <- r ;; k" := (bind r (fun x => k))
  (at level 100, r at next level, right associativity) : py_scope.
Notation "x <~ m ;; k" := (bindM m (fun x => k))
  (at level 100, m at next level, right associativity) : py_scope.
Local Open Scope py_scope.

(** ** Data model *)

(** [np.ndarray] of occupancy values, row-major. *)
Definition Grid : Type := list (list Z).

Definition Location : Type := (Z * Z)%type.

(** [class Action(Enum)]: members in definition order. *)
Inductive Action : Type := LEFT | RIGHT | JUMP | DUCK | STAY.

(** [action.value]: (delta row, delta col). *)
Definition value (a : Action) : Z * Z :=
  match a with
  | LEFT => (0, -1)
  | RIGHT => (0, 1)
  | JUMP => (-1, 0)
  | DUCK => (1, 0)
  | STAY => (0, 0)
  end.

(** [list(Action)] *)
Definition list_Action : list Action := [LEFT; RIGHT; JUMP; DUCK; STAY].

Definition START_LOCATION : Location := (1, 1).

(** [class State]: the window of grids (a slot may be [None]) and the
    player's location. *)
Record State : Type := mkState {
  grids : list (option Grid);
  player_location : Location
}.

(** The global [GAME_MAP : list[np.ndarray] | None]. *)
Definition GameMap : Type := option (list Grid).

(** ** Operations *)

(** [grid[row, col]]; subscripting [None] is a [TypeError]. *)
Definition grid_at (grid : option Grid) (row col : Z) : result Z :=
  match grid with
  | None => Raise TypeError
  | Some g =>
      r <- np_getitem g row ;;
      np_getitem r col
  end.

(** [State._update_location] *)
Definition _update_location (player_location : Location) (action : Action)
  : Location :=
  let '(row, col) := player_location in
  let '(row_change, col_change) := value action in
  let new_row := Z.max 0 (row + row_change) in
  let new_row := Z.min new_row 2 in
  let new_col := Z.max 0 (col + col_change) in
  let new_col := Z.min new_col 2 in
  (new_row, new_col).

(** [State._collides] *)
Definition _collides (player_location : Location) (grid : option Grid)
  : result bool :=
  let '(row, col) := player_location in
  own <- grid_at grid row col ;;
  if own =? 1 then Ok true
  else
    let mid_row := 1 in
    let bot_row := 2 in
    if row =? mid_row then
      below <- grid_at grid bot_row col ;;
      if below =? 1 then Ok true else Ok false
    else Ok false.

(** The [for move in list(Action)] loop of [get_reward], over the moves still
    to try. *)
Fixpoint lookahead_loop (moves : list Action) (current_location : Location)
    (grid : option Grid) (total_reward : Z) : result Z :=
  match moves with
  | [] => Ok total_reward
  | move :: rest =>
      let new_location := _update_location current_location move in
      c <- _collides new_location grid ;;
      if negb c then Ok (total_reward + 1)
      else lookahead_loop rest current_location grid total_reward
  end.

(** [State.get_reward], with the enumeration of the actions exposed. *)
Definition get_reward_with (enumeration : list Action) (self : State)
    (action : Action) : result Z :=
  let new_location := _update_location (player_location self) action in
  g0 <- getitem (grids self) 0 ;;
  c <- _collides new_location g0 ;;
  if c then Ok 0
  else
    let total_reward := 1 in
    let current_location := new_location in
    g1 <- getitem (grids self) 1 ;;
    match g1 with
    | None => Ok total_reward
    | Some _ => lookahead_loop enumeration current_location g1 total_reward
    end.

(** [State.get_reward] *)
Definition get_reward (self : State) (action : Action) : result Z :=
  get_reward_with list_Action self action.

(** [INIT_GAME] *)
Definition INIT_GAME (game_map : list Grid) : M GameMap unit :=
  fun _ => (Ok tt, Some game_map).

(** [NEXT_GRID] *)
Definition NEXT_GRID (drop : bool) : M GameMap (option Grid) :=
  fun GAME_MAP =>
    match GAME_MAP with
    | None => (Raise AssertionError, GAME_MAP)
    | Some [] => (Ok None, GAME_MAP)
    | Some (g :: rest) =>
        if drop then (Ok (Some g), Some rest)
        else (Ok (Some g), GAME_MAP)
    end.

(** [State.move]; [None] for the next state is the end of the game. *)
Definition move (self : State) (action : Action)
  : M GameMap (Z * option State) :=
  reward <~ lift (get_reward self action) ;;
  let new_location := _update_location (player_location self) action in
  let stand_row := 1 in
  let new_location := (stand_row, snd new_location) in
  if reward =? 0 then ret (reward, None)
  else
    old <~ lift (getitem (grids self) 1) ;;
    fresh <~ NEXT_GRID true ;;
    let new_grids := [old; fresh] in
    if forallb (fun grid => match grid with None => true | Some _ => false end)
         new_grids
    then ret (reward, None)
    else ret (reward, Some (mkState new_grids new_location)).

(** [str.lower] on one character, for the code points below 256: the
    letters [A]..[Z] and the capital letters of the Latin-1 supplement
    (192..222 without the multiplication sign 215) move up by 32, every
    other character is kept. *)
Definition lower_char (c : ascii) : ascii :=
  let n := nat_of_ascii c in
  if ((65 <=? n) && (n <=? 90))%nat then ascii_of_nat (n + 32)
  else if ((192 <=? n) && (n <=? 222) && negb (n =? 215))%nat
       then ascii_of_nat (n + 32)
  else c.

Fixpoint lower (s : string) : string :=
  match s with
  | EmptyString => EmptyString
  | String c rest => String (lower_char c) (lower rest)
  end.

(** The dict literal of [str_to_action], keys in source order. *)
Definition actions : list (string * Action) :=
  [("l", LEFT); ("r", RIGHT); ("j", JUMP); ("d", DUCK); ("s", STAY)]%string.

(** [key in d] / [d[key]] on a dict with distinct keys. *)
Fixpoint dict_get {V} (d : list (string * V)) (key : string) : option V :=
  match d with
  | [] => None
  | (k, v) :: rest => if String.eqb key k then Some v else dict_get rest key
  end.

(** [str_to_action] *)
Definition str_to_action (move : string) : result Action :=
  let move := lower move in
  match dict_get actions move with
  | None => Raise KeyError
  | Some a => Ok a
  end.

(** The set-up of [main]: the map is installed as [GAME_MAP] and the first
    window is read off its first two entries. *)
Definition main_start (game_map : list Grid) : M GameMap State :=
  _ <~ INIT_GAME game_map ;;
  g0 <~ lift (getitem game_map 0) ;;
  g1 <~ lift (getitem game_map 1) ;;
  let grids := [Some g0; Some g1] in
  ret (mkState grids START_LOCATION).

(** One round of the [while] loop of [main], given the line typed. *)
Definition main_turn (state : State) (line : string)
  : M GameMap (Z * option State) :=
  action <~ lift (str_to_action line) ;;
  move state action.

(** ** Runs of the state machine *)

(** [step st gm a r st' gm']: [move] on [st] with store [gm] returns reward
    [r] and the successor state [st'], leaving store [gm']. *)
Definition step (st : State) (gm : GameMap) (a : Action)
    (r : Z) (st' : State) (gm' : GameMap) : Prop :=
  move st a gm = (Ok (r, Some st'), gm').

(** A run of successful moves, one per action of the list. *)
Inductive run : State -> GameMap -> list Action -> State -> GameMap -> Prop :=
| run_nil st gm : run st gm [] st gm
| run_cons st gm a r st1 gm1 acts st2 gm2 :
    step st gm a r st1 gm1 ->
    run st1 gm1 acts st2 gm2 ->
    run st gm (a :: acts) st2 gm2.

(** The configurations [main] can be in at the top of its loop. *)
Inductive reachable (game_map : list Grid) : State -> GameMap -> Prop :=
| reach_start st gm :
    main_start game_map None = (Ok st, gm) ->
    reachable game_map st gm
| reach_move st gm a r st' gm' :
    reachable game_map st gm ->
    step st gm a r st' gm' ->
    reachable game_map st' gm'.

(** The window invariant of [main]'s loop: two slots, the first one filled,
    and an absent lookahead only once the queue has run dry. *)
Definition window_inv (st : State) (gm : GameMap) : Prop :=
  exists res look q,
    grids st = [Some res; look] /\ gm = Some q /\ (look = None -> q = []).

(** Length of the queue still held by the store. *)
Definition queue_length (gm : GameMap) : Z :=
  match gm with
  | None => 0
  | Some q => Z.of_nat (length q)
  end.

(** ** The specification's reading of the rules *)

Module Spec.

(** Cell of a 3x3 grid, [0] outside. *)
Definition cell (g : Grid) (row col : Z) : Z :=
  nth (Z.to_nat col) (nth (Z.to_nat row) g []) 0.

(** Delta plus clamp of each axis to [0,2]. *)
Definition clamp (x : Z) : Z :=
  if x <? 0 then 0 else if 2 <? x then 2 else x.

Definition candidate (p : Location) (a : Action) : Location :=
  (clamp (fst p + fst (value a)), clamp (snd p + snd (value a))).

(** CollisionRule: own cell, and the cell below for a standing player. *)
Definition collides (p : Location) (g : Grid) : bool :=
  (cell g (fst p) (snd p) =? 1)
  || ((fst p =? 1) && (cell g 2 (snd p) =? 1)).

Definition all_actions : list Action := [STAY; DUCK; JUMP; RIGHT; LEFT].

(** RewardPolicy: 0 on a hit, 2 when some follow-up is safe, 1 otherwise. *)
Definition reward (a : Action) (p : Location) (resolution : Grid)
    (lookahead : option Grid) : Z :=
  let c := candidate p a in
  if collides c resolution then 0
  else
    match lookahead with
    | None => 1
    | Some lg =>
        if existsb (fun m => negb (collides (candidate c m) lg)) all_actions
        then 2 else 1
    end.

End Spec.

(** A grid with three rows of three cells. *)
Definition is_3x3 (g : Grid) : bool :=
  (length g =? 3)%nat && forallb (fun r => (length r =? 3)%nat) g.

(** Every cell is 0 or 1. *)
Definition is_binary (g : Grid) : bool :=
  forallb (forallb (fun v => (v =? 0) || (v =? 1))) g.

Definition in_frame (p : Location) : Prop :=
  0 <= fst p <= 2 /\ 0 <= snd p <= 2.

(** ** Sample grids and maps *)

Definition grid_open : Grid := [[0; 0; 0]; [0; 0; 0]; [0; 0; 0]].
Definition grid_full : Grid := [[1; 1; 1]; [1; 1; 1]; [1; 1; 1]].
Definition grid_centre : Grid := [[0; 0; 0]; [0; 1; 0]; [0; 0; 0]].
Definition grid_lane0 : Grid := [[0; 0; 0]; [1; 0; 0]; [0; 0; 0]].
Definition grid_floor : Grid := [[0; 0; 0]; [0; 0; 0]; [0; 1; 0]].

(** A course of exactly two grids. *)
Definition short_course : list Grid := [grid_open; grid_lane0].

(** The state [main] starts from on [short_course]. *)
Definition short_start : State :=
  mkState [Some grid_open; Some grid_lane0] START_LOCATION.

(** The ten accepted input lines. *)
Definition accepted_lines : list string :=
  ["l"; "r"; "j"; "d"; "s"; "L"; "R"; "J"; "D"; "S"]%string.

(** ** The driver *)

(** The [while state is not None] loop of [main], fed the lines typed at the
    prompt.  It returns the state it is left in with the two counters: no
    state when the loop has ended (the counters then go to [game_over]),
    the current state when the lines have run out first. *)
Fixpoint main_loop (lines : list string) (state : option State)
    (total_reward total_moves : Z) : M GameMap (option State * Z * Z) :=
  match state with
  | None => ret (None, total_reward, total_moves)
  | Some st =>
      match lines with
      | [] => ret (state, total_reward, total_moves)
      | line :: rest =>
          out <~ main_turn st line ;;
          let '(reward, state) := out in
          let total_reward := total_reward + reward in
          let total_moves := total_moves + 1 in
          main_loop rest state total_reward total_moves
      end
  end.

(** [main] on a given map and given input lines. *)
Definition main (game_map : list Grid) (lines : list string)
  : M GameMap (option State * Z * Z) :=
  state <~ main_start game_map ;;
  let total_reward := 0 in
  let total_moves := 0 in
  main_loop lines (Some state) total_reward total_moves.

(** ** Predicates used in the statements *)

(** Every grid of a list is 3x3. *)
Definition all_3x3 (l : list Grid) : Prop :=
  Forall (fun g => is_3x3 g = true) l.

(** A configuration [main] keeps to on a map of 3x3 grids: a window of two
    slots, the first filled, 3x3 grids in the window and in the queue, the
    player standing inside the frame, and an absent lookahead only with an
    empty queue. *)
Definition wf_config (st : State) (gm : GameMap) : Prop :=
  exists res look q c,
    grids st = [Some res; look] /\ gm = Some q
    /\ is_3x3 res = true
    /\ (forall lg, look = Some lg -> is_3x3 lg = true)
    /\ all_3x3 q
    /\ (look = None -> q = [])
    /\ player_location st = (1, c) /\ 0 <= c <= 2.

(** Moves the configuration can still survive: the lookahead slice and the
    queued ones. *)
Definition slices_ahead (st : State) (gm : GameMap) : nat :=
  match grids st !! 1%nat, gm with
  | Some (Some _), Some q => S (length q)
  | _, _ => 0
  end.

(** Every obstacle of [g] inside the frame is an obstacle of [g']. *)
Definition covers (g g' : Grid) : Prop :=
  forall row col, 0 <= row <= 2 -> 0 <= col <= 2 ->
    grid_at (Some g) row col = Ok 1 -> grid_at (Some g') row col = Ok 1.

(** The same for a lookahead slot that may be absent. *)
Definition covers_slot (look look' : option Grid) : Prop :=
  match look, look' with
  | None, None => True
  | Some lg, Some lg' => covers lg lg'
  | _, _ => False
  end.

(** Actions that keep the posture. *)
Definition lateral (a : Action) : bool :=
  match a with
  | LEFT | RIGHT | STAY => true
  | JUMP | DUCK => false
  end.

(** A lookahead grid free only at the top left cell. *)
Definition grid_corner : Grid := [[0; 1; 1]; [1; 1; 1]; [1; 1; 1]].

(** ** Basic facts about indexing and clamping *)

Lemma getitem_0 {A} (x : A) (l : list A) : getitem (x :: l) 0 = Ok x.
Proof. reflexivity. Qed.

Lemma getitem_1 {A} (x y : A) (l : list A) : getitem (x :: y :: l) 1 = Ok y.
Proof. reflexivity. Qed.

Lemma three_cases (x : Z) : 0 <= x <= 2 -> x = 0 \/ x = 1 \/ x = 2.
Proof. lia. Qed.

Ltac frame_cases x H :=
  destruct (three_cases x H) as [-> | [-> | ->]].

Lemma is_3x3_inv (g : Grid) :
  is_3x3 g = true ->
  exists a b c d e f h i j, g = [[a; b; c]; [d; e; f]; [h; i; j]].
Proof.
  unfold is_3x3. intros H. apply andb_prop in H as [Hl Hr].
  destruct g as [|r0 [|r1 [|r2 [|? ?]]]]; try discriminate.
  cbn in Hr.
  apply andb_prop in Hr as [H0 Hr].
  apply andb_prop in Hr as [H1 Hr].
  apply andb_prop in Hr as [H2 _].
  destruct r0 as [|a [|b [|c [|? ?]]]]; try discriminate.
  destruct r1 as [|d [|e [|f [|? ?]]]]; try discriminate.
  destruct r2 as [|h [|i [|j [|? ?]]]]; try discriminate.
  by exists a, b, c, d, e, f, h, i, j.
Qed.

(** Inside the frame, [grid[row, col]] succeeds and reads the cell. *)
Lemma grid_at_cell (g : Grid) (row col : Z) :
  is_3x3 g = true -> 0 <= row <= 2 -> 0 <= col <= 2 ->
  grid_at (Some g) row col = Ok (Spec.cell g row col).
Proof.
  intros Hg Hr Hc.
  destruct (is_3x3_inv g Hg) as (a & b & c & d & e & f & h & i & j & ->).
  frame_cases row Hr; frame_cases col Hc; reflexivity.
Qed.

Lemma update_location_candidate (p : Location) (a : Action) :
  _update_location p a = Spec.candidate p a.
Proof.
  destruct p as [row col]. unfold _update_location, Spec.candidate, Spec.clamp.
  destruct (value a) as [dr dc]. cbn [fst snd]. f_equal.
  - destruct (Z.ltb_spec (row + dr) 0), (Z.ltb_spec 2 (row + dr)); lia.
  - destruct (Z.ltb_spec (col + dc) 0), (Z.ltb_spec 2 (col + dc)); lia.
Qed.

(** Whatever the starting point, the updated location is inside the frame. *)
Lemma update_location_in_frame (p : Location) (a : Action) :
  in_frame (_update_location p a).
Proof.
  destruct p as [row col]. unfold _update_location, in_frame.
  destruct (value a) as [dr dc]. cbn [fst snd]. lia.
Qed.

Lemma collides_spec (p : Location) (g : Grid) :
  is_3x3 g = true -> in_frame p ->
  _collides p (Some g) = Ok (Spec.collides p g).
Proof.
  intros Hg [Hr Hc]. destruct p as [row col]. cbn [fst snd] in *.
  unfold _collides, Spec.collides. cbn [fst snd].
  rewrite (grid_at_cell g row col Hg Hr Hc). cbn [bind].
  destruct (Spec.cell g row col =? 1); [reflexivity|].
  cbn [orb]. destruct (row =? 1); [|reflexivity].
  rewrite (grid_at_cell g 2 col Hg ltac:(lia) Hc). cbn [bind andb].
  by destruct (Spec.cell g 2 col =? 1).
Qed.

(** The loop returns as soon as one move is safe: it computes an [existsb]. *)
Lemma lookahead_loop_exists (moves : list Action) (cur : Location)
    (lg : Grid) (total : Z) :
  is_3x3 lg = true ->
  lookahead_loop moves cur (Some lg) total =
  Ok (if existsb (fun m => negb (Spec.collides (Spec.candidate cur m) lg)) moves
      then total + 1 else total).
Proof.
  intros Hg. induction moves as [|m rest IH]; [reflexivity|].
  cbn [lookahead_loop existsb].
  rewrite (collides_spec _ lg Hg (update_location_in_frame cur m)).
  cbn [bind]. rewrite update_location_candidate.
  destruct (negb _); [reflexivity|]. cbn [orb]. exact IH.
Qed.

Lemma existsb_perm {A} (f : A -> bool) (l l' : list A) :
  Permutation l l' -> existsb f l = existsb f l'.
Proof.
  induction 1 as [|x l l' _ IH|x y l|l l' l'' _ IH1 _ IH2]; cbn.
  - reflexivity.
  - by rewrite IH.
  - by destruct (f x), (f y).
  - congruence.
Qed.

Lemma all_actions_perm : Permutation Spec.all_actions list_Action.
Proof.
  unfold Spec.all_actions, list_Action.
  symmetry. apply (Permutation_rev [LEFT; RIGHT; JUMP; DUCK; STAY]).
Qed.

Lemma get_reward_with_spec (enumeration : list Action) (p : Location)
    (a : Action) (res : Grid) (look : option Grid) (more : list (option Grid)) :
  Permutation enumeration list_Action ->
  in_frame p -> is_3x3 res = true ->
  (forall lg, look = Some lg -> is_3x3 lg = true) ->
  get_reward_with enumeration (mkState (Some res :: look :: more) p) a
  = Ok (Spec.reward a p res look).
Proof.
  intros Hperm Hp Hres Hlook.
  unfold get_reward_with, Spec.reward. cbn [grids player_location].
  rewrite getitem_0, getitem_1. cbn [bind].
  rewrite (collides_spec _ res Hres (update_location_in_frame p a)).
  cbn [bind]. rewrite update_location_candidate.
  destruct (Spec.collides (Spec.candidate p a) res); [reflexivity|].
  destruct look as [lg|]; [|reflexivity].
  rewrite (lookahead_loop_exists _ _ lg 1 (Hlook lg eq_refl)).
  rewrite (existsb_perm _ _ _ Hperm), <- (existsb_perm _ _ _ all_actions_perm).
  reflexivity.
Qed.

(** ** Collision rule *)

(** C2: for a location inside the frame and a 3x3 grid, [_collides] returns
    true exactly when the grid holds 1 at the player's own cell, or the
    player stands (row 1) and the grid holds 1 at row 2 of the same column.
    So a standing player is checked at its own cell and the one below, an
    airborne (row 0) or ducking (row 2) player at its own cell only. *)
Theorem collides_own_cell_or_below (row col : Z) (grid : Grid) :
  0 <= row <= 2 -> 0 <= col <= 2 -> is_3x3 grid = true ->
  exists own below hit,
    grid_at (Some grid) row col = Ok own
    /\ grid_at (Some grid) 2 col = Ok below
    /\ _collides (row, col) (Some grid) = Ok hit
    /\ (hit = true <-> own = 1 \/ (row = 1 /\ below = 1))
    /\ (row = 1 -> (hit = true <-> own = 1 \/ below = 1))
    /\ (row = 0 \/ row = 2 -> (hit = true <-> own = 1)).
Proof.
  intros Hr Hc Hg.
  exists (Spec.cell grid row col), (Spec.cell grid 2 col),
         (Spec.collides (row, col) grid).
  split; [by apply grid_at_cell|].
  split; [apply grid_at_cell; [done | lia | done]|].
  split; [by apply collides_spec|].
  unfold Spec.collides. cbn [fst snd].
  rewrite orb_true_iff, andb_true_iff, !Z.eqb_eq.
  repeat split; try tauto; intros; lia.
Qed.

Lemma collides_own_cell_or_below_witness :
  _collides (1, 1) (Some grid_floor) = Ok true.
Proof.
  destruct (collides_own_cell_or_below 1 1 grid_floor)
    as (own & below & hit & _ & Hbelow & Hhit & _ & Hstand & _);
    [lia | lia | reflexivity |].
  injection Hbelow as <-.
  rewrite Hhit. f_equal. apply Hstand; [reflexivity | right; reflexivity].
Defined.

(** ** Clamping *)

(** C8: at the edge of the frame the clamp absorbs the move: JUMP at row 0,
    DUCK at row 2, LEFT at column 0 and RIGHT at column 2 leave that
    coordinate as it is; STAY keeps the column of any location in the
    frame. *)
Theorem clamp_identity_at_boundary (row col : Z) :
  0 <= row <= 2 -> 0 <= col <= 2 ->
  (row = 0 -> fst (_update_location (row, col) JUMP) = row)
  /\ (row = 2 -> fst (_update_location (row, col) DUCK) = row)
  /\ (col = 0 -> snd (_update_location (row, col) LEFT) = col)
  /\ (col = 2 -> snd (_update_location (row, col) RIGHT) = col)
  /\ snd (_update_location (row, col) STAY) = col.
Proof.
  intros Hr Hc. unfold _update_location. cbn [value fst snd].
  repeat split; intros; lia.
Qed.

Lemma clamp_identity_at_boundary_witness :
  fst (_update_location (0, 2) JUMP) = 0
  /\ snd (_update_location (0, 2) RIGHT) = 2
  /\ snd (_update_location (0, 2) STAY) = 2.
Proof.
  destruct (clamp_identity_at_boundary 0 2) as (Hj & _ & _ & Hr & Hs);
    [lia | lia |].
  split; [apply Hj; reflexivity|]. split; [apply Hr; reflexivity | exact Hs].
Defined.

(** ** Reward policy *)

(** C1: for a location inside the frame, any action, a 3x3 resolution grid
    and a lookahead slot that is absent or a 3x3 grid, [get_reward] returns
    0 when the clamped candidate collides with the resolution grid;
    otherwise 1 when the lookahead is absent or every action applied to the
    candidate ends on a colliding cell of the lookahead grid; otherwise 2.
    The result is one of 0, 1, 2, equals the specification's reward, and is
    the same for every order in which the five actions are enumerated. *)
Theorem get_reward_three_way (row col : Z) (action : Action) (res : Grid)
    (look : option Grid) :
  0 <= row <= 2 -> 0 <= col <= 2 ->
  is_3x3 res = true ->
  (forall lg, look = Some lg -> is_3x3 lg = true) ->
  let self := mkState [Some res; look] (row, col) in
  let cand := Spec.candidate (row, col) action in
  (Spec.collides cand res = true -> get_reward self action = Ok 0)
  /\ (Spec.collides cand res = false ->
      (look = None
       \/ exists lg, look = Some lg
            /\ forall m, Spec.collides (Spec.candidate cand m) lg = true) ->
      get_reward self action = Ok 1)
  /\ (Spec.collides cand res = false ->
      (exists lg m, look = Some lg
            /\ Spec.collides (Spec.candidate cand m) lg = false) ->
      get_reward self action = Ok 2)
  /\ get_reward self action = Ok (Spec.reward action (row, col) res look)
  /\ (exists r, get_reward self action = Ok r /\ (r = 0 \/ r = 1 \/ r = 2))
  /\ (forall enumeration, Permutation enumeration list_Action ->
      get_reward_with enumeration self action = get_reward self action).
Proof.
  intros Hr Hc Hres Hlook self cand.
  assert (Hp : in_frame (row, col)) by (split; assumption).
  assert (Hall : forall enumeration, Permutation enumeration list_Action ->
            get_reward_with enumeration self action
            = Ok (Spec.reward action (row, col) res look)).
  { intros e He. by apply get_reward_with_spec. }
  assert (Hrew : get_reward self action
                 = Ok (Spec.reward action (row, col) res look)).
  { apply Hall. reflexivity. }
  rewrite Hrew. unfold Spec.reward. fold cand.
  repeat split.
  - by intros ->.
  - intros -> [-> | (lg & -> & Hevery)]; [reflexivity|].
    replace (existsb _ _) with false; [reflexivity|].
    symmetry. apply not_true_is_false. intros Hex.
    apply existsb_exists in Hex as (m & _ & Hm).
    rewrite Hevery in Hm. discriminate.
  - intros -> (lg & m & -> & Hm).
    replace (existsb _ _) with true; [reflexivity|].
    symmetry. apply existsb_exists. exists m. split.
    + destruct m; cbn; tauto.
    + by rewrite Hm.
  - destruct (Spec.collides cand res); [eauto|].
    destruct look as [lg|]; [|eauto].
    destruct (existsb _ _); eauto 6.
  - intros e He. by rewrite (Hall e He).
Qed.

Lemma get_reward_three_way_witness :
  get_reward (mkState [Some grid_open; Some grid_lane0] (1, 1)) STAY = Ok 2.
Proof.
  destruct (get_reward_three_way 1 1 STAY grid_open (Some grid_lane0))
    as (_ & _ & H2 & _); [lia | lia | reflexivity | |].
  - intros lg Hlg. injection Hlg as <-. reflexivity.
  - apply H2; [reflexivity|]. exists grid_lane0, STAY. split; reflexivity.
Defined.

(** The three reward scenarios: a hit at standing height, a lookahead with
    one blocked lane, a lookahead blocked everywhere. *)
Example reward_hit :
  move (mkState [Some grid_centre; Some grid_open] (1, 1)) STAY (Some [])
  = (Ok (0, None), Some []).
Proof. reflexivity. Qed.

Example reward_safe_follow_up :
  get_reward (mkState [Some grid_open; Some grid_lane0] (1, 1)) STAY = Ok 2.
Proof. reflexivity. Qed.

Example reward_no_follow_up :
  get_reward (mkState [Some grid_open; Some grid_full] (1, 1)) STAY = Ok 1.
Proof. reflexivity. Qed.

(** C9: [get_reward] is a function of the action, the player's location and
    the first two slots of the window, and of nothing else: two states that
    agree on these give the same result (value or exception), whatever
    further slots their windows hold; it takes no store, so [GAME_MAP] is
    neither read nor written. *)
Theorem get_reward_deterministic (s1 s2 : State) (action : Action) :
  player_location s1 = player_location s2 ->
  grids s1 !! 0%nat = grids s2 !! 0%nat ->
  grids s1 !! 1%nat = grids s2 !! 1%nat ->
  get_reward s1 action = get_reward s2 action.
Proof.
  intros Hloc H0 H1.
  unfold get_reward, get_reward_with, getitem.
  rewrite Hloc, H0, H1. reflexivity.
Qed.

Lemma get_reward_deterministic_witness :
  get_reward (mkState [Some grid_open; Some grid_full; None] (1, 1)) STAY
  = get_reward (mkState [Some grid_open; Some grid_full] (1, 1)) STAY.
Proof.
  apply get_reward_deterministic; reflexivity.
Defined.

(** ** The transition [move] *)

Lemma NEXT_GRID_drop (q : list Grid) :
  NEXT_GRID true (Some q) = (Ok (hd_error q), Some (tl q)).
Proof. by destruct q. Qed.

(** A crash: reward 0 ends the game before the queue is touched. *)
Lemma move_crash (st : State) (a : Action) (gm : GameMap) :
  get_reward st a = Ok 0 -> move st a gm = (Ok (0, None), gm).
Proof. intros H. unfold move, bindM, lift. rewrite H. reflexivity. Qed.

(** A survived slice: the window shifts and one [NEXT_GRID] call is made. *)
Lemma move_survive (st : State) (a : Action) (q : list Grid) (r : Z)
    (look : option Grid) :
  get_reward st a = Ok r -> r <> 0 ->
  grids st !! 1%nat = Some look ->
  move st a (Some q) =
  (Ok (r, match look, hd_error q with
          | None, None => None
          | _, _ =>
              Some (mkState [look; hd_error q]
                      (1, snd (_update_location (player_location st) a)))
          end),
   Some (tl q)).
Proof.
  intros Hr Hnz Hlook. unfold move, bindM, lift, ret, getitem.
  rewrite Hr, Hlook. destruct (Z.eqb_spec r 0) as [?|_]; [done|].
  rewrite NEXT_GRID_drop. cbn [forallb].
  by destruct look, (hd_error q).
Qed.

(** What a successful move tells about the configuration it started in. *)
Lemma step_inv (st : State) (gm : GameMap) (a : Action) (r : Z)
    (st' : State) (gm' : GameMap) :
  step st gm a r st' gm' ->
  exists look q,
    get_reward st a = Ok r /\ r <> 0
    /\ grids st !! 1%nat = Some look
    /\ gm = Some q /\ gm' = Some (tl q)
    /\ (look <> None \/ hd_error q <> None)
    /\ st' = mkState [look; hd_error q]
               (1, snd (_update_location (player_location st) a)).
Proof.
  unfold step. intros H.
  destruct (get_reward st a) as [r0|e] eqn:Hr.
  2:{ unfold move, bindM, lift in H. rewrite Hr in H. discriminate. }
  destruct (Z.eq_dec r0 0) as [->|Hnz].
  { rewrite (move_crash st a gm Hr) in H. discriminate. }
  destruct (grids st !! 1%nat) as [look|] eqn:Hlook.
  2:{ unfold move, bindM, lift, ret, getitem in H. rewrite Hr, Hlook in H.
      destruct (r0 =? 0); discriminate. }
  destruct gm as [q|].
  2:{ unfold move, bindM, lift, ret, getitem in H. rewrite Hr, Hlook in H.
      destruct (r0 =? 0); discriminate. }
  rewrite (move_survive st a q r0 look Hr Hnz Hlook) in H.
  exists look, q.
  destruct look as [g|], (hd_error q) as [f|]; inversion H; subst;
    repeat split; auto; try (left; discriminate); right; discriminate.
Qed.

Lemma main_start_inv (game_map : list Grid) (st : State) (gm : GameMap) :
  main_start game_map None = (Ok st, gm) ->
  exists g0 g1 rest,
    game_map = g0 :: g1 :: rest
    /\ st = mkState [Some g0; Some g1] START_LOCATION
    /\ gm = Some game_map.
Proof.
  destruct game_map as [|g0 [|g1 rest]]; try discriminate.
  intros [= <- <-]. by exists g0, g1, rest.
Qed.

Lemma reachable_inv (game_map : list Grid) (st : State) (gm : GameMap) :
  reachable game_map st gm -> window_inv st gm.
Proof.
  induction 1 as [st gm Hstart | st gm a r st' gm' _ IH Hstep].
  - destruct (main_start_inv _ _ _ Hstart) as (g0 & g1 & rest & -> & -> & ->).
    exists g0, (Some g1), (g0 :: g1 :: rest). by repeat split.
  - destruct IH as (res & look & q & Hg & -> & Hdry).
    destruct (step_inv _ _ _ _ _ _ Hstep)
      as (look' & q' & _ & _ & Hl & [= <-] & -> & Hsome & ->).
    rewrite Hg in Hl. injection Hl as <-.
    destruct look as [g|].
    + exists g, (hd_error q), (tl q). repeat split.
      destruct q; [reflexivity | discriminate].
    + rewrite (Hdry eq_refl) in Hsome. destruct Hsome; done.
Qed.

(** From any configuration with the window invariant, a surviving move
    shifts the window by one pull and ends the game only on an absent
    lookahead.  The invariant also holds when the first window is popped
    off the queue instead of read from it. *)
Lemma move_on_window (st : State) (gm : GameMap) (a : Action) (r : Z) :
  window_inv st gm ->
  get_reward st a = Ok r -> r <> 0 ->
  exists res look q,
    grids st = [Some res; look] /\ gm = Some q
    /\ NEXT_GRID true gm = (Ok (hd_error q), Some (tl q))
    /\ move st a gm =
       (Ok (r, match look with
               | None => None
               | Some _ =>
                   Some (mkState [look; hd_error q]
                           (1, snd (_update_location (player_location st) a)))
               end),
        Some (tl q)).
Proof.
  intros (res & look & q & Hg & -> & Hdry) Hr Hnz.
  exists res, look, q. repeat split; [exact Hg | apply NEXT_GRID_drop |].
  rewrite (move_survive st a q r look Hr Hnz); [|by rewrite Hg].
  destruct look as [g|]; [reflexivity|].
  by rewrite (Hdry eq_refl).
Qed.

(** C3: in every configuration [main] can reach, for every action with a
    nonzero reward, [move] makes one pull from the queue (its head is
    removed, or nothing is when the queue is empty), forms the window
    [previous lookahead; pulled grid], and ends the game exactly when the
    new resolution slot, the previous lookahead, is absent; otherwise the
    successor state holds that window. *)
Theorem move_shifts_window (game_map : list Grid) (st : State) (gm : GameMap)
    (a : Action) (r : Z) :
  reachable game_map st gm ->
  get_reward st a = Ok r -> r <> 0 ->
  exists res look q,
    grids st = [Some res; look] /\ gm = Some q
    /\ NEXT_GRID true gm = (Ok (hd_error q), Some (tl q))
    /\ move st a gm =
       (Ok (r, match look with
               | None => None
               | Some _ =>
                   Some (mkState [look; hd_error q]
                           (1, snd (_update_location (player_location st) a)))
               end),
        Some (tl q)).
Proof.
  intros Hreach. apply move_on_window. by apply (reachable_inv game_map).
Qed.

Lemma move_shifts_window_witness :
  move short_start STAY (Some short_course) =
  (Ok (2, Some (mkState [Some grid_lane0; Some grid_open] (1, 1))),
   Some [grid_lane0]).
Proof.
  destruct (move_shifts_window short_course short_start (Some short_course)
              STAY 2) as (res & look & q & Hg & Hq & _ & Hmove).
  - apply reach_start. reflexivity.
  - reflexivity.
  - lia.
  - injection Hg as _ <-. injection Hq as <-. exact Hmove.
Defined.

(** C4 (amended): on a course of two grids whose queue is empty once the
    first window is built, one successful move leads to a successor state
    with window [second grid; absent], the queue still empty; the game ends
    with the second successful move, which returns its own reward. *)
Theorem two_grid_course_two_moves (g0 g1 : Grid) (pos : Location)
    (a : Action) (r : Z) :
  get_reward (mkState [Some g0; Some g1] pos) a = Ok r -> r <> 0 ->
  let st1 := mkState [Some g1; None] (1, snd (_update_location pos a)) in
  move (mkState [Some g0; Some g1] pos) a (Some []) = (Ok (r, Some st1), Some [])
  /\ (forall a2 r2, get_reward st1 a2 = Ok r2 -> r2 <> 0 ->
      move st1 a2 (Some []) = (Ok (r2, None), Some [])).
Proof.
  intros Hr Hnz st1. split.
  - by rewrite (move_survive _ a [] r (Some g1) Hr Hnz).
  - intros a2 r2 Hr2 Hnz2.
    by rewrite (move_survive st1 a2 [] r2 None Hr2 Hnz2).
Qed.

Lemma two_grid_course_two_moves_witness :
  move short_start STAY (Some []) =
    (Ok (2, Some (mkState [Some grid_lane0; None] (1, 1))), Some [])
  /\ move (mkState [Some grid_lane0; None] (1, 1)) STAY (Some []) =
    (Ok (1, None), Some []).
Proof.
  destruct (two_grid_course_two_moves grid_open grid_lane0 (1, 1) STAY 2)
    as [H1 H2]; [reflexivity | lia |].
  split; [exact H1|]. apply H2; [reflexivity | lia].
Defined.

(** C4 as stated fails: after one successful move on the two-grid course the
    game is not over and the new resolution slot holds the second grid,
    both with the queue empty from the start and with the queue [main]
    leaves behind. *)
Lemma two_grid_course_counterexample :
  main_start short_course None = (Ok short_start, Some short_course)
  /\ get_reward short_start STAY = Ok 2
  /\ move short_start STAY (Some []) =
     (Ok (2, Some (mkState [Some grid_lane0; None] (1, 1))), Some [])
  /\ move short_start STAY (Some short_course) =
     (Ok (2, Some (mkState [Some grid_lane0; Some grid_open] (1, 1))),
      Some [grid_lane0])
  /\ ~ (exists r gm', move short_start STAY (Some []) = (Ok (r, None), gm'))
  /\ ~ (exists r gm',
         move short_start STAY (Some short_course) = (Ok (r, None), gm')).
Proof.
  repeat split; try reflexivity; intros (r & gm' & H); vm_compute in H;
    discriminate.
Qed.

(** ** Consumption of the queue *)

Lemma run_queue (st : State) (gm : GameMap) (acts : list Action)
    (st' : State) (gm' : GameMap) :
  run st gm acts st' gm' -> gm' = drop (length acts) <$> gm.
Proof.
  induction 1 as [st gm | st gm a r st1 gm1 acts st2 gm2 Hstep _ IH].
  - by destruct gm.
  - destruct (step_inv _ _ _ _ _ _ Hstep)
      as (look & q & _ & _ & _ & -> & -> & _ & _).
    rewrite IH. cbn. f_equal. destruct q; cbn [tl]; [by rewrite !drop_nil | reflexivity].
Qed.

(** C5 (amended): over N successful moves the queue loses its first N grids,
    or all of them if it holds fewer: its length goes from L to
    max (0, L - N), which is L - N whenever N <= L.  A successful move pulls
    one grid from a non-empty queue and none from an empty one. *)
Theorem successful_moves_consume (st : State) (gm : GameMap)
    (acts : list Action) (st' : State) (gm' : GameMap) :
  run st gm acts st' gm' ->
  let N := Z.of_nat (length acts) in
  gm' = drop (length acts) <$> gm
  /\ queue_length gm' = Z.max 0 (queue_length gm - N)
  /\ (N <= queue_length gm -> queue_length gm' = queue_length gm - N).
Proof.
  intros Hrun N. pose proof (run_queue _ _ _ _ _ Hrun) as ->.
  split; [reflexivity|].
  assert (queue_length (drop (length acts) <$> gm)
          = Z.max 0 (queue_length gm - N)) as ->.
  { destruct gm as [q|]; cbn; [|subst N; lia].
    rewrite length_drop. subst N. lia. }
  split; [reflexivity | lia].
Qed.

Lemma successful_moves_consume_witness :
  exists st' gm',
    run short_start (Some short_course) [STAY; STAY] st' gm'
    /\ queue_length gm' = 0.
Proof.
  assert (Hrun : run short_start (Some short_course) [STAY; STAY]
                   (mkState [Some grid_open; Some grid_lane0] (1, 1))
                   (Some [])).
  { eapply run_cons; [unfold step; vm_compute; reflexivity|].
    eapply run_cons; [unfold step; vm_compute; reflexivity|]. apply run_nil. }
  eexists _, _. split; [exact Hrun|].
  destruct (successful_moves_consume _ _ _ _ _ Hrun) as (_ & _ & Hlen).
  rewrite Hlen; reflexivity.
Defined.

(** C5 as stated fails: from the start of [main] on the two-grid course,
    three moves succeed, while the queue goes from length 2 to length 0,
    not to 2 - 3. *)
Lemma exactly_one_consumption_counterexample :
  main_start short_course None = (Ok short_start, Some short_course)
  /\ run short_start (Some short_course) [STAY; STAY; STAY]
       (mkState [Some grid_lane0; None] (1, 1)) (Some [])
  /\ queue_length (Some []) <> queue_length (Some short_course) - 3.
Proof.
  split; [reflexivity|]. split.
  - eapply run_cons; [unfold step; vm_compute; reflexivity|].
    eapply run_cons; [unfold step; vm_compute; reflexivity|].
    eapply run_cons; [unfold step; vm_compute; reflexivity|]. apply run_nil.
  - cbn. lia.
Qed.

(** C6: when the reward of the action is 0, [move] ends the game with
    reward 0 and leaves the store exactly as it found it. *)
Theorem move_crash_keeps_queue (st : State) (a : Action) (gm : GameMap) :
  get_reward st a = Ok 0 ->
  move st a gm = (Ok (0, None), gm).
Proof. apply move_crash. Qed.

Lemma move_crash_keeps_queue_witness :
  move (mkState [Some grid_centre; Some grid_open] (1, 1)) STAY
       (Some [grid_full; grid_open])
  = (Ok (0, None), Some [grid_full; grid_open]).
Proof.
  apply move_crash_keeps_queue. reflexivity.
Defined.

(** C7: whenever [move] returns a successor state, the location stored in
    it has row 1, and its column is the column of the clamped candidate:
    the old column plus the action's column delta, clamped to [0,2]. *)
Theorem move_resets_posture (st : State) (a : Action) (gm : GameMap)
    (r : Z) (st' : State) (gm' : GameMap) :
  move st a gm = (Ok (r, Some st'), gm') ->
  fst (player_location st') = 1
  /\ snd (player_location st') = snd (_update_location (player_location st) a)
  /\ snd (player_location st')
     = Spec.clamp (snd (player_location st) + snd (value a)).
Proof.
  intros H.
  destruct (step_inv st gm a r st' gm' H)
    as (look & q & _ & _ & _ & _ & _ & _ & ->).
  cbn [player_location fst snd]. repeat split.
  by rewrite update_location_candidate.
Qed.

Lemma move_resets_posture_witness :
  move short_start JUMP (Some short_course)
  = (Ok (2, Some (mkState [Some grid_lane0; Some grid_open] (1, 1))),
     Some [grid_lane0])
  /\ fst (player_location
            (mkState [Some grid_lane0; Some grid_open] (1, 1))) = 1.
Proof.
  assert (Hmove : move short_start JUMP (Some short_course)
                  = (Ok (2, Some (mkState [Some grid_lane0; Some grid_open]
                                    (1, 1))),
                     Some [grid_lane0])) by reflexivity.
  split; [exact Hmove|].
  exact (proj1 (move_resets_posture _ _ _ _ _ _ Hmove)).
Defined.

(** ** Input lines *)

Ltac all_chars c := destruct c as [[] [] [] [] [] [] [] []].

(** The characters that [lower_char] sends to one of the five keys. *)
Lemma lower_char_key (c k : ascii) :
  In k ["l"; "r"; "j"; "d"; "s"]%char ->
  lower_char c = k ->
  c = k \/ c = ascii_of_nat (nat_of_ascii k - 32).
Proof.
  intros Hk Hc. cbn [In] in Hk.
  destruct Hk as [<- | [<- | [<- | [<- | [<- | []]]]]];
    all_chars c; vm_compute in Hc; try discriminate Hc;
    vm_compute; auto.
Qed.

Lemma lower_empty (s : string) : lower s = EmptyString -> s = EmptyString.
Proof. by destruct s. Qed.

(** A line that lowers to a one-letter key is that letter or its capital. *)
Lemma lower_key (s : string) (k : ascii) :
  In k ["l"; "r"; "j"; "d"; "s"]%char ->
  lower s = String k EmptyString ->
  s = String k EmptyString
  \/ s = String (ascii_of_nat (nat_of_ascii k - 32)) EmptyString.
Proof.
  intros Hk Hs. destruct s as [|c rest]; [discriminate|].
  cbn [lower] in Hs. injection Hs as Hc Hrest.
  apply lower_empty in Hrest as ->.
  destruct (lower_char_key c k Hk Hc) as [-> | ->]; auto.
Qed.

Lemma str_to_action_accepted (s : string) (a : Action) :
  str_to_action s = Ok a ->
  (a = LEFT /\ (s = "l" \/ s = "L"))%string
  \/ (a = RIGHT /\ (s = "r" \/ s = "R"))%string
  \/ (a = JUMP /\ (s = "j" \/ s = "J"))%string
  \/ (a = DUCK /\ (s = "d" \/ s = "D"))%string
  \/ (a = STAY /\ (s = "s" \/ s = "S"))%string.
Proof.
  unfold str_to_action, actions. cbn [dict_get].
  destruct (String.eqb_spec (lower s) "l") as [Hl|_].
  { intros [= <-]. left. split; [done|].
    apply (lower_key s "l"%char); [cbn; tauto | exact Hl]. }
  destruct (String.eqb_spec (lower s) "r") as [Hl|_].
  { intros [= <-]. right; left. split; [done|].
    apply (lower_key s "r"%char); [cbn; tauto | exact Hl]. }
  destruct (String.eqb_spec (lower s) "j") as [Hl|_].
  { intros [= <-]. do 2 right; left. split; [done|].
    apply (lower_key s "j"%char); [cbn; tauto | exact Hl]. }
  destruct (String.eqb_spec (lower s) "d") as [Hl|_].
  { intros [= <-]. do 3 right; left. split; [done|].
    apply (lower_key s "d"%char); [cbn; tauto | exact Hl]. }
  destruct (String.eqb_spec (lower s) "s") as [Hl|_].
  { intros [= <-]. do 4 right. split; [done|].
    apply (lower_key s "s"%char); [cbn; tauto | exact Hl]. }
  discriminate.
Qed.

(** C10: [str_to_action] accepts exactly the ten lines l, r, j, d, s and
    their capitals, each mapped to the action of its lower-case letter;
    on every other line it raises [KeyError], and a round of [main] fed
    such a line raises it with the store as it was, before [move] runs. *)
Theorem str_to_action_ten_lines (s : string) :
  (str_to_action "l" = Ok LEFT /\ str_to_action "L" = Ok LEFT
   /\ str_to_action "r" = Ok RIGHT /\ str_to_action "R" = Ok RIGHT
   /\ str_to_action "j" = Ok JUMP /\ str_to_action "J" = Ok JUMP
   /\ str_to_action "d" = Ok DUCK /\ str_to_action "D" = Ok DUCK
   /\ str_to_action "s" = Ok STAY /\ str_to_action "S" = Ok STAY)
  /\ ((exists a, str_to_action s = Ok a) <-> In s accepted_lines)
  /\ (~ In s accepted_lines ->
      str_to_action s = Raise KeyError
      /\ forall (state : State) (gm : GameMap),
           main_turn state s gm = (Raise KeyError, gm)).
Proof.
  split; [repeat split|]. split.
  - split.
    + intros [a Ha]. apply str_to_action_accepted in Ha.
      unfold accepted_lines. cbn [In].
      destruct Ha as [[_ [-> | ->]] | [[_ [-> | ->]] | [[_ [-> | ->]]
                    | [[_ [-> | ->]] | [_ [-> | ->]]]]]]; tauto.
    + unfold accepted_lines. cbn [In].
      intros [<- | [<- | [<- | [<- | [<- | [<- | [<- | [<- | [<- | [<- | []]]]]]]]]]];
        eexists; reflexivity.
  - intros Hnot.
    assert (Hraise : str_to_action s = Raise KeyError).
    { destruct (str_to_action s) as [a|e] eqn:Hs.
      - exfalso. apply Hnot. apply str_to_action_accepted in Hs.
        unfold accepted_lines. cbn [In].
        destruct Hs as [[_ [-> | ->]] | [[_ [-> | ->]] | [[_ [-> | ->]]
                      | [[_ [-> | ->]] | [_ [-> | ->]]]]]]; tauto.
      - unfold str_to_action in Hs.
        destruct (dict_get actions (lower s)); [discriminate|].
        by injection Hs as <-. }
    split; [exact Hraise|].
    intros state gm. unfold main_turn, bindM, lift. by rewrite Hraise.
Qed.

Lemma str_to_action_ten_lines_witness :
  str_to_action "x" = Raise KeyError
  /\ main_turn short_start "x" (Some short_course)
     = (Raise KeyError, Some short_course).
Proof.
  destruct (str_to_action_ten_lines "x") as (_ & _ & Hother).
  destruct Hother as [Hraise Hturn].
  - unfold accepted_lines. cbn [In].
    intros [H | [H | [H | [H | [H | [H | [H | [H | [H | [H | []]]]]]]]]]];
      discriminate H.
  - split; [exact Hraise | apply Hturn].
Defined.

(** * Further properties of the code *)

(** ** Locations *)

(** X1: [_update_location] lands inside the frame from any location, even one
    outside it; a further STAY changes nothing; and from inside the frame it
    moves the player by at most one cell in all. *)
Theorem update_location_stays_in_frame (p : Location) (a : Action) :
  in_frame (_update_location p a)
  /\ _update_location (_update_location p a) STAY = _update_location p a
  /\ (in_frame p ->
      Z.abs (fst (_update_location p a) - fst p)
      + Z.abs (snd (_update_location p a) - snd p) <= 1).
Proof.
  destruct p as [row col]. unfold in_frame, _update_location.
  destruct a; cbn [value fst snd]; repeat split; try lia;
    try (f_equal; lia); intros [? ?]; lia.
Qed.

Lemma update_location_stays_in_frame_witness :
  Z.abs (fst (_update_location (0, 2) RIGHT) - 0)
  + Z.abs (snd (_update_location (0, 2) RIGHT) - 2) <= 1.
Proof.
  destruct (update_location_stays_in_frame (0, 2) RIGHT) as (_ & _ & H).
  apply H. unfold in_frame. cbn [fst snd]. lia.
Defined.

(** ** Indexing errors of the collision test *)

Lemma np_axis_out (n i : Z) : ~ (- n <= i < n) -> np_axis n i = None.
Proof.
  intros H. unfold np_axis.
  destruct (Z.leb_spec 0 i), (Z.ltb_spec i n), (Z.leb_spec (- n) i),
    (Z.ltb_spec i 0); cbn; try reflexivity; lia.
Qed.

Lemma six_cases (x : Z) :
  -3 <= x <= 2 ->
  x = -3 \/ x = -2 \/ x = -1 \/ x = 0 \/ x = 1 \/ x = 2.
Proof. lia. Qed.

Ltac axis_cases x H :=
  destruct (six_cases x H) as [-> | [-> | [-> | [-> | [-> | ->]]]]].

Lemma np_getitem_3 {A} (x y z : A) (i : Z) :
  -3 <= i <= 2 ->
  exists v, np_getitem [x; y; z] i = Ok v /\ In v [x; y; z].
Proof.
  intros Hi. axis_cases i Hi; eexists; (split; [reflexivity|]); cbn; tauto.
Qed.

Lemma grid_at_out (g : Grid) (row col : Z) :
  is_3x3 g = true ->
  ~ (-3 <= row <= 2 /\ -3 <= col <= 2) ->
  grid_at (Some g) row col = Raise IndexError.
Proof.
  intros Hg Hout.
  destruct (is_3x3_inv g Hg) as (a & b & c & d & e & f & h & i & j & ->).
  unfold grid_at.
  destruct (decide (-3 <= row <= 2)) as [Hr|Hr].
  - assert (Hc : ~ (- 3 <= col < 3)) by lia.
    destruct (np_getitem_3 [a; b; c] [d; e; f] [h; i; j] row Hr)
      as (r & -> & Hin). cbn [bind].
    destruct Hin as [<- | [<- | [<- | []]]]; unfold np_getitem;
      cbn [length]; change (Z.of_nat 3) with 3;
      by rewrite (np_axis_out 3 col Hc).
  - unfold np_getitem at 1. cbn [length]. change (Z.of_nat 3) with 3.
    by rewrite (np_axis_out 3 row) by lia.
Qed.

Lemma grid_at_in (g : Grid) (row col : Z) :
  is_3x3 g = true -> -3 <= row <= 2 -> -3 <= col <= 2 ->
  exists v, grid_at (Some g) row col = Ok v
    /\ grid_at (Some g) (row mod 3) (col mod 3) = Ok v.
Proof.
  intros Hg Hr Hc.
  destruct (is_3x3_inv g Hg) as (a & b & c & d & e & f & h & i & j & ->).
  axis_cases row Hr; axis_cases col Hc; eexists; split; reflexivity.
Qed.

(** X2: On a 3x3 grid [_collides] raises [IndexError] exactly when a coordinate
    is outside [-3, 2]; a negative coordinate in range reads the grid from
    the end, as numpy does; and a missing grid is a [TypeError]. *)
Theorem collides_index_error (row col : Z) (g : Grid) :
  is_3x3 g = true ->
  ((exists hit, _collides (row, col) (Some g) = Ok hit)
   <-> (-3 <= row <= 2 /\ -3 <= col <= 2))
  /\ (~ (-3 <= row <= 2 /\ -3 <= col <= 2) ->
      _collides (row, col) (Some g) = Raise IndexError)
  /\ (-3 <= row <= 2 -> -3 <= col <= 2 ->
      grid_at (Some g) row col = grid_at (Some g) (row mod 3) (col mod 3))
  /\ _collides (row, col) None = Raise TypeError.
Proof.
  intros Hg.
  assert (Hout : ~ (-3 <= row <= 2 /\ -3 <= col <= 2) ->
                 _collides (row, col) (Some g) = Raise IndexError).
  { intros H. unfold _collides. by rewrite (grid_at_out g row col Hg H). }
  split; [split | split; [exact Hout | split]].
  - intros [hit Hhit].
    destruct (decide (-3 <= row <= 2 /\ -3 <= col <= 2)) as [H|H]; [done|].
    rewrite (Hout H) in Hhit. discriminate.
  - intros [Hr Hc]. unfold _collides.
    destruct (grid_at_in g row col Hg Hr Hc) as (v & -> & _). cbn [bind].
    destruct (v =? 1); [eauto|].
    destruct (row =? 1); [|eauto].
    destruct (grid_at_in g 2 col Hg ltac:(lia) Hc) as (w & -> & _).
    cbn [bind]. destruct (w =? 1); eauto.
  - intros Hr Hc.
    destruct (grid_at_in g row col Hg Hr Hc) as (v & -> & ->). reflexivity.
  - reflexivity.
Qed.

Lemma collides_index_error_witness :
  _collides (3, 0) (Some grid_floor) = Raise IndexError
  /\ grid_at (Some grid_floor) (-1) 1 = grid_at (Some grid_floor) 2 1.
Proof.
  destruct (collides_index_error 3 0 grid_floor) as (_ & Hout & _);
    [reflexivity|].
  destruct (collides_index_error (-1) 1 grid_floor) as (_ & _ & Hwrap & _);
    [reflexivity|].
  split; [apply Hout; lia | apply Hwrap; lia].
Defined.

(** ** Outcomes of the reward computation *)

Lemma getitem_raise {A} (l : list A) (i : nat) (e : exn) :
  getitem l i = Raise e -> e = IndexError.
Proof. unfold getitem. destruct (l !! i); congruence. Qed.

Lemma np_getitem_raise {A} (l : list A) (i : Z) (e : exn) :
  np_getitem l i = Raise e -> e = IndexError.
Proof.
  unfold np_getitem. destruct (np_axis _ i); [apply getitem_raise|congruence].
Qed.

Lemma grid_at_raise (grid : option Grid) (row col : Z) (e : exn) :
  grid_at grid row col = Raise e -> e = IndexError \/ e = TypeError.
Proof.
  destruct grid as [g|]; cbn; [|intros [= <-]; by right].
  destruct (np_getitem g row) as [r|e'] eqn:Hr; cbn.
  - intros H. left. by apply np_getitem_raise in H.
  - intros [= <-]. left. by apply np_getitem_raise in Hr.
Qed.

Lemma collides_raise (p : Location) (grid : option Grid) (e : exn) :
  _collides p grid = Raise e -> e = IndexError \/ e = TypeError.
Proof.
  destruct p as [row col]. unfold _collides.
  destruct (grid_at grid row col) as [v|e'] eqn:Hv; cbn [bind].
  - destruct (v =? 1); [discriminate|].
    destruct (row =? 1); [|discriminate].
    destruct (grid_at grid 2 col) as [w|e''] eqn:Hw; cbn [bind].
    + destruct (w =? 1); discriminate.
    + intros [= <-]. by apply grid_at_raise in Hw.
  - intros [= <-]. by apply grid_at_raise in Hv.
Qed.

Lemma lookahead_loop_outcomes (moves : list Action) (cur : Location)
    (grid : option Grid) (total : Z) :
  (forall r, lookahead_loop moves cur grid total = Ok r ->
     r = total \/ r = total + 1)
  /\ (forall e, lookahead_loop moves cur grid total = Raise e ->
     e = IndexError \/ e = TypeError).
Proof.
  induction moves as [|m rest [IHok IHraise]]; cbn [lookahead_loop].
  - split; [intros r [= <-]; by left | discriminate].
  - destruct (_collides (_update_location cur m) grid) as [c|e'] eqn:Hc;
      cbn [bind].
    + destruct c; cbn [negb]; [exact (conj IHok IHraise)|].
      split; [intros r [= <-]; by right | discriminate].
    + split; [discriminate|]. intros e [= <-]. by apply collides_raise in Hc.
Qed.

Lemma get_reward_ok_or_raise (st : State) (a : Action) :
  (forall r, get_reward st a = Ok r -> r = 0 \/ r = 1 \/ r = 2)
  /\ (forall e, get_reward st a = Raise e ->
        e = IndexError \/ e = TypeError).
Proof.
  unfold get_reward, get_reward_with.
  destruct (getitem (grids st) 0) as [g0|e0] eqn:H0; cbn [bind].
  2:{ split; [discriminate|]. intros e [= <-]. left.
      by apply getitem_raise in H0. }
  destruct (_collides _ g0) as [c|ec] eqn:Hc; cbn [bind].
  2:{ split; [discriminate|]. intros e [= <-]. by apply collides_raise in Hc. }
  destruct c.
  { split; [intros r [= <-]; by left | discriminate]. }
  destruct (getitem (grids st) 1) as [g1|e1] eqn:H1; cbn [bind].
  2:{ split; [discriminate|]. intros e [= <-]. left.
      by apply getitem_raise in H1. }
  destruct g1 as [lg|].
  - destruct (lookahead_loop_outcomes list_Action
                (_update_location (player_location st) a) (Some lg) 1)
      as [Hok Hraise].
    split; [|exact Hraise]. intros r Hr. destruct (Hok r Hr); lia.
  - split; [intros r [= <-]; right; by left | discriminate].
Qed.

Lemma get_reward_range (st : State) (a : Action) (r : Z) :
  get_reward st a = Ok r -> r = 0 \/ r = 1 \/ r = 2.
Proof. apply get_reward_ok_or_raise. Qed.

(** X3: Whatever the window holds, [get_reward] returns 0, 1 or 2 when it
    returns, and raises nothing but [IndexError] or [TypeError]. *)
Theorem get_reward_outcomes (st : State) (a : Action) :
  (forall r, get_reward st a = Ok r -> r = 0 \/ r = 1 \/ r = 2)
  /\ (forall e, get_reward st a = Raise e ->
        e = IndexError \/ e = TypeError).
Proof. apply get_reward_ok_or_raise. Qed.

Lemma get_reward_outcomes_witness :
  (2 = 0 \/ 2 = 1 \/ 2 = 2)
  /\ (TypeError = IndexError \/ TypeError = TypeError).
Proof.
  split.
  - apply (proj1 (get_reward_outcomes short_start STAY)). reflexivity.
  - apply (proj2 (get_reward_outcomes (mkState [None] (1, 1)) STAY)).
    reflexivity.
Defined.

(** X4: The docstring's proviso on the window: with a single slot the reward is
    0 on a hit and an [IndexError] otherwise, with no slot an [IndexError],
    and with an empty first slot a [TypeError]. *)
Theorem get_reward_short_window (p : Location) (a : Action) (g : Grid)
    (hit : bool) (w : list (option Grid)) :
  _collides (_update_location p a) (Some g) = Ok hit ->
  get_reward (mkState [Some g] p) a
  = (if hit then Ok 0 else Raise IndexError)
  /\ get_reward (mkState [] p) a = Raise IndexError
  /\ get_reward (mkState (None :: w) p) a = Raise TypeError.
Proof.
  intros Hhit. unfold get_reward, get_reward_with.
  cbn [grids player_location]. repeat split.
  - rewrite getitem_0. cbn [bind]. rewrite Hhit. cbn [bind].
    by destruct hit.
  - rewrite getitem_0. cbn [bind].
    by destruct (_update_location p a).
Qed.

Lemma get_reward_short_window_witness :
  get_reward (mkState [Some grid_open] (1, 1)) STAY = Raise IndexError.
Proof.
  destruct (get_reward_short_window (1, 1) STAY grid_open false [])
    as (H & _); [reflexivity | exact H].
Defined.

(** ** Effects of [move] on the store *)

Lemma move_cases (st : State) (a : Action) (gm : GameMap) :
  (exists e, get_reward st a = Raise e /\ move st a gm = (Raise e, gm))
  \/ (get_reward st a = Ok 0 /\ move st a gm = (Ok (0, None), gm))
  \/ (exists r, get_reward st a = Ok r /\ r <> 0
        /\ grids st !! 1%nat = None
        /\ move st a gm = (Raise IndexError, gm))
  \/ (exists r look, get_reward st a = Ok r /\ r <> 0
        /\ grids st !! 1%nat = Some look /\ gm = None
        /\ move st a gm = (Raise AssertionError, gm))
  \/ (exists r look q, get_reward st a = Ok r /\ r <> 0
        /\ grids st !! 1%nat = Some look /\ gm = Some q
        /\ move st a gm =
           (Ok (r, match look, hd_error q with
                   | None, None => None
                   | _, _ =>
                       Some (mkState [look; hd_error q]
                               (1, snd (_update_location
                                          (player_location st) a)))
                   end),
            Some (tl q))).
Proof.
  destruct (get_reward st a) as [r|e] eqn:Hr.
  2:{ left. exists e. split; [done|]. unfold move, bindM, lift.
      by rewrite Hr. }
  right. destruct (Z.eq_dec r 0) as [->|Hnz].
  { left. split; [done|]. by apply move_crash. }
  right. destruct (grids st !! 1%nat) as [look|] eqn:Hlook.
  2:{ left. exists r. repeat split; try done.
      unfold move, bindM, lift, getitem. rewrite Hr, Hlook.
      by destruct (Z.eqb_spec r 0). }
  right. destruct gm as [q|].
  - right. exists r, look, q. repeat split; try done.
    by apply move_survive.
  - left. exists r, look. repeat split; try done.
    unfold move, bindM, lift, getitem. rewrite Hr, Hlook.
    by destruct (Z.eqb_spec r 0).
Qed.

(** X5: [move] touches [GAME_MAP] at most once: the store it leaves is the one
    it found, or that one without its first grid.  When [move] raises, and
    when it returns reward 0, the store is the one it found. *)
Theorem move_pops_at_most_once (st : State) (a : Action) (gm : GameMap) :
  (snd (move st a gm) = gm
   \/ exists g q, gm = Some (g :: q) /\ snd (move st a gm) = Some q)
  /\ (forall e, fst (move st a gm) = Raise e -> snd (move st a gm) = gm)
  /\ (forall nxt, fst (move st a gm) = Ok (0, nxt) ->
        snd (move st a gm) = gm).
Proof.
  destruct (move_cases st a gm)
    as [(e & _ & ->) | [(_ & ->) | [(r & _ & _ & _ & ->)
       | [(r & look & _ & _ & _ & _ & ->)
         | (r & look & q & _ & Hnz & _ & -> & ->)]]]];
    cbn [fst snd]; try (repeat split; auto; fail).
  repeat split.
  - destruct q as [|g q]; [by left|]. right. by exists g, q.
  - discriminate.
  - intros nxt [= ? _]. done.
Qed.

Lemma move_pops_at_most_once_witness :
  snd (move (mkState [Some grid_open] (1, 1)) STAY (Some short_course))
  = Some short_course.
Proof.
  apply (proj1 (proj2 (move_pops_at_most_once
                         (mkState [Some grid_open] (1, 1)) STAY
                         (Some short_course))) IndexError).
  reflexivity.
Defined.

(** X6: Before [INIT_GAME], [move] still reports a crash, but a surviving move
    on a two-slot window fails the assertion of [NEXT_GRID]. *)
Theorem move_before_init (st : State) (a : Action) (r : Z) :
  get_reward st a = Ok r ->
  is_Some (grids st !! 1%nat) ->
  move st a None
  = (if r =? 0 then Ok (0, None) else Raise AssertionError, None).
Proof.
  intros Hr [look Hlook].
  destruct (move_cases st a None)
    as [(e & He & _) | [(H0 & ->) | [(r' & _ & _ & Hn & _)
       | [(r' & look' & Hr' & Hnz & _ & _ & ->)
         | (r' & look' & q & _ & _ & _ & Hq & _)]]]]; try congruence.
  - rewrite Hr in H0. by injection H0 as ->.
  - rewrite Hr in Hr'. injection Hr' as <-.
    by destruct (Z.eqb_spec r 0).
Qed.

Lemma move_before_init_witness :
  move short_start STAY None = (Raise AssertionError, None).
Proof.
  apply (move_before_init short_start STAY 2); [reflexivity|].
  by exists (Some grid_lane0).
Defined.

(** ** The queue *)

(** X7: Peeking with [NEXT_GRID(drop=False)] leaves the store alone and shows
    the grid the next [NEXT_GRID(drop=True)] returns; dropping removes the
    first grid and nothing else; an empty queue gives [None] and stays
    empty; right after [INIT_GAME] the first grid of the map is next. *)
Theorem next_grid_peek_and_drop (gm : GameMap) (game_map : list Grid) :
  snd (NEXT_GRID false gm) = gm
  /\ fst (NEXT_GRID false gm) = fst (NEXT_GRID true gm)
  /\ snd (NEXT_GRID true gm) = drop 1 <$> gm
  /\ (g <~ NEXT_GRID false ;; g' <~ NEXT_GRID true ;; ret (g, g')) gm
     = (g <~ NEXT_GRID true ;; ret (g, g)) gm
  /\ (_ <~ INIT_GAME game_map ;; NEXT_GRID true) gm
     = (Ok (game_map !! 0%nat), Some (drop 1 game_map)).
Proof.
  repeat split.
  - by destruct gm as [[|g q]|].
  - by destruct gm as [[|g q]|].
  - by destruct gm as [[|g q]|].
  - by destruct gm as [[|g q]|].
  - by destruct game_map.
Qed.

(** ** Invariants of the loop of [main] *)

Lemma step_window (st : State) (gm : GameMap) (a : Action) (r : Z)
    (st' : State) (gm' : GameMap) :
  window_inv st gm -> step st gm a r st' gm' ->
  window_inv st' gm'
  /\ S (slices_ahead st' gm') = slices_ahead st gm
  /\ exists c, player_location st' = (1, c) /\ 0 <= c <= 2.
Proof.
  intros (res & look & q & Hg & -> & Hdry) Hstep.
  destruct (step_inv _ _ _ _ _ _ Hstep)
    as (look' & q' & _ & _ & Hl & [= <-] & -> & Hsome & ->).
  rewrite Hg in Hl. injection Hl as <-.
  destruct look as [g|].
  2:{ rewrite (Hdry eq_refl) in Hsome. destruct Hsome; done. }
  split; [|split].
  - exists g, (hd_error q), (tl q). repeat split.
    destruct q; [reflexivity | discriminate].
  - unfold slices_ahead. rewrite Hg. cbn [grids].
    by destruct q.
  - eexists. split; [reflexivity|].
    apply (update_location_in_frame (player_location st) a).
Qed.

Lemma main_start_window (game_map : list Grid) (st : State) (gm : GameMap) :
  main_start game_map None = (Ok st, gm) ->
  window_inv st gm
  /\ slices_ahead st gm = S (length game_map)
  /\ player_location st = (1, 1).
Proof.
  intros H.
  destruct (main_start_inv _ _ _ H) as (g0 & g1 & rest & -> & -> & ->).
  split; [|by split].
  exists g0, (Some g1), (g0 :: g1 :: rest). by repeat split.
Qed.

(** X8: In every configuration [main] reaches the player stands (row 1) in one
    of the three lanes, the window has two slots with the first one filled,
    and the lookahead slot is empty only when the queue is. *)
Theorem reachable_standing (game_map : list Grid) (st : State)
    (gm : GameMap) :
  reachable game_map st gm ->
  (exists c, player_location st = (1, c) /\ 0 <= c <= 2)
  /\ (exists res look q,
        grids st = [Some res; look] /\ gm = Some q
        /\ (look = None -> q = [])).
Proof.
  intros Hreach. split; [|by apply (reachable_inv game_map)].
  destruct Hreach as [st gm Hstart | st gm a r st' gm' Hreach Hstep].
  - destruct (main_start_window _ _ _ Hstart) as (_ & _ & ->).
    exists 1. split; [reflexivity | lia].
  - apply (step_window st gm a r st' gm'); [|done].
    by apply (reachable_inv game_map).
Qed.

Lemma reachable_standing_witness :
  exists c, player_location
              (mkState [Some grid_lane0; Some grid_open] (1, 1)) = (1, c)
            /\ 0 <= c <= 2.
Proof.
  apply (reachable_standing short_course _ (Some [grid_lane0])).
  apply (reach_move short_course short_start (Some short_course) JUMP 2).
  - apply reach_start. reflexivity.
  - reflexivity.
Defined.

(** ** The course [main] plays *)

Lemma tl_drop {A} (l : list A) (k : nat) : tl (drop k l) = drop (S k) l.
Proof.
  revert k. induction l as [|x l IH]; intros [|k]; cbn; try reflexivity.
  apply IH.
Qed.

Lemma hd_error_drop {A} (l : list A) (k : nat) : hd_error (drop k l) = l !! k.
Proof. rewrite head_lookup, lookup_drop. f_equal. lia. Qed.

Lemma run_window (game_map : list Grid) (k : nat) (st : State)
    (gm : GameMap) (acts : list Action) (st' : State) (gm' : GameMap) :
  (2 <= length game_map)%nat ->
  grids st = [(take 2 game_map ++ game_map) !! k;
              (take 2 game_map ++ game_map) !! S k] ->
  gm = Some (drop k game_map) ->
  run st gm acts st' gm' ->
  grids st' = [(take 2 game_map ++ game_map) !! (k + length acts)%nat;
               (take 2 game_map ++ game_map) !! S (k + length acts)]
  /\ gm' = Some (drop (k + length acts) game_map).
Proof.
  intros Hlen Hg Hgm Hrun. revert k Hg Hgm.
  induction Hrun as [st gm | st gm a r st1 gm1 acts st2 gm2 Hstep _ IH];
    intros k Hg Hgm.
  - cbn [length]. by rewrite Nat.add_0_r.
  - destruct (step_inv _ _ _ _ _ _ Hstep)
      as (look & q & _ & _ & Hl & Hq & -> & _ & ->).
    rewrite Hgm in Hq. injection Hq as <-.
    rewrite Hg in Hl. injection Hl as <-.
    cbn [length]. replace (k + S (length acts))%nat
      with (S k + length acts)%nat by lia.
    apply IH.
    + cbn [grids]. f_equal. f_equal.
      rewrite hd_error_drop, lookup_app_r, length_take by
        (rewrite length_take; lia).
      f_equal. lia.
    + by rewrite tl_drop.
Qed.

Lemma run_ahead (st : State) (gm : GameMap) (acts : list Action)
    (st' : State) (gm' : GameMap) :
  window_inv st gm -> run st gm acts st' gm' ->
  window_inv st' gm'
  /\ (length acts + slices_ahead st' gm')%nat = slices_ahead st gm.
Proof.
  intros Hinv Hrun.
  induction Hrun as [st gm | st gm a r st1 gm1 acts st2 gm2 Hstep _ IH].
  - by split.
  - destruct (step_window _ _ _ _ _ _ Hinv Hstep) as (Hinv1 & Hs & _).
    destruct (IH Hinv1) as [Hinv2 Hn]. split; [done|].
    cbn [length]. lia.
Qed.

(** X9: [main] reads its first window off the map without removing it from
    [GAME_MAP], so the course played is the first two grids followed by the
    whole map: after k successful moves the window holds entries k and k+1
    of that course (absent past its end) and the queue has lost its first k
    grids.  No more than [len(game_map) + 1] moves can succeed. *)
Theorem window_after_moves (game_map : list Grid) (st0 : State)
    (gm0 : GameMap) (acts : list Action) (st : State) (gm : GameMap) :
  main_start game_map None = (Ok st0, gm0) ->
  run st0 gm0 acts st gm ->
  let k := length acts in
  let course := take 2 game_map ++ game_map in
  grids st = [course !! k; course !! S k]
  /\ gm = Some (drop k game_map)
  /\ (k <= length game_map + 1)%nat.
Proof.
  intros Hstart Hrun.
  destruct (main_start_window _ _ _ Hstart) as (Hinv & Hahead & _).
  destruct (main_start_inv _ _ _ Hstart) as (g0 & g1 & rest & -> & -> & ->).
  destruct (run_window (g0 :: g1 :: rest) 0
              (mkState [Some g0; Some g1] START_LOCATION)
              (Some (g0 :: g1 :: rest)) acts st gm) as [Hg Hq];
    [cbn; lia | reflexivity | reflexivity | exact Hrun |].
  destruct (run_ahead _ _ _ _ _ Hinv Hrun) as [_ Hn].
  cbn zeta. split; [exact Hg | split; [exact Hq | lia]].
Qed.

Lemma window_after_moves_witness :
  grids (mkState [Some grid_lane0; Some grid_open] (1, 1))
  = [(take 2 short_course ++ short_course) !! 1%nat;
     (take 2 short_course ++ short_course) !! 2%nat].
Proof.
  assert (Hrun : run short_start (Some short_course) [STAY]
                   (mkState [Some grid_lane0; Some grid_open] (1, 1))
                   (Some [grid_lane0])).
  { eapply run_cons; [unfold step; vm_compute; reflexivity | apply run_nil]. }
  exact (proj1 (window_after_moves short_course short_start
                  (Some short_course) [STAY] _ _ eq_refl Hrun)).
Defined.

(** ** No exception on a map of 3x3 grids *)

Lemma move_wf (st : State) (gm : GameMap) (a : Action) :
  wf_config st gm ->
  exists r nxt gm',
    get_reward st a = Ok r
    /\ move st a gm = (Ok (r, nxt), gm')
    /\ (r = 0 \/ r = 1 \/ r = 2)
    /\ match nxt with
       | None => True
       | Some st' =>
           wf_config st' gm' /\ r <> 0
           /\ S (slices_ahead st' gm') = slices_ahead st gm
       end.
Proof.
  intros (res & look & q & c & Hg & -> & Hres & Hlook & Hq & Hdry & Hloc & Hc).
  destruct st as [w p]. cbn [grids player_location] in *. subst w p.
  assert (Hr : get_reward (mkState [Some res; look] (1, c)) a
               = Ok (Spec.reward a (1, c) res look)).
  { apply get_reward_with_spec;
      [reflexivity | split; cbn [fst snd]; lia | done | done]. }
  set (st := mkState [Some res; look] (1, c)) in *.
  set (r := Spec.reward a (1, c) res look) in *.
  pose proof (get_reward_range st a r Hr) as Hrange.
  destruct (Z.eq_dec r 0) as [H0|Hnz].
  { exists r, None, (Some q). rewrite H0 in *.
    repeat split; auto. by apply move_crash. }
  eexists r, _, _. split; [exact Hr|].
  split; [by apply (move_survive st a q r look)|]. split; [exact Hrange|].
  destruct look as [lg|].
  2:{ rewrite (Hdry eq_refl). exact I. }
  split; [|split; [exact Hnz|]].
  - exists lg, (hd_error q), (tl q),
      (snd (_update_location (player_location st) a)).
    repeat split; auto.
    + intros g Hgq. destruct q as [|g' q]; [discriminate|].
      injection Hgq as ->. by inversion Hq.
    + destruct q; [constructor | by inversion Hq].
    + destruct q; [reflexivity | discriminate].
    + apply (update_location_in_frame (player_location st) a).
    + apply (update_location_in_frame (player_location st) a).
  - unfold slices_ahead. cbn [grids]. by destruct q.
Qed.

Lemma main_start_wf (game_map : list Grid) (st : State) (gm : GameMap) :
  all_3x3 game_map ->
  main_start game_map None = (Ok st, gm) -> wf_config st gm.
Proof.
  intros Hmap H.
  destruct (main_start_inv _ _ _ H) as (g0 & g1 & rest & -> & -> & ->).
  inversion Hmap as [|? ? H0 Hmap1]; subst.
  inversion Hmap1 as [|? ? H1 _]; subst.
  exists g0, (Some g1), (g0 :: g1 :: rest), 1.
  repeat split; auto; try lia; try discriminate.
  by intros lg [= <-].
Qed.

Lemma reachable_wf (game_map : list Grid) (st : State) (gm : GameMap) :
  all_3x3 game_map -> reachable game_map st gm -> wf_config st gm.
Proof.
  intros Hmap. induction 1 as [st gm Hstart | st gm a r st' gm' _ IH Hstep].
  - by apply (main_start_wf game_map).
  - destruct (move_wf st gm a IH) as (r' & nxt & gm1 & _ & Hmove & _ & Hnxt).
    unfold step in Hstep. rewrite Hmove in Hstep.
    injection Hstep as -> -> ->. apply Hnxt.
Qed.

(** X10: On a map of 3x3 grids no configuration [main] reaches lets [get_reward]
    or [move] raise: every action gets a reward in {0,1,2}, and [move]
    returns that reward with a next state or the end of the game. *)
Theorem move_never_raises (game_map : list Grid) (st : State)
    (gm : GameMap) (a : Action) :
  all_3x3 game_map ->
  reachable game_map st gm ->
  exists r nxt gm',
    get_reward st a = Ok r
    /\ (r = 0 \/ r = 1 \/ r = 2)
    /\ move st a gm = (Ok (r, nxt), gm').
Proof.
  intros Hmap Hreach.
  destruct (move_wf st gm a (reachable_wf _ _ _ Hmap Hreach))
    as (r & nxt & gm' & Hr & Hmove & Hrange & _).
  by exists r, nxt, gm'.
Qed.

Lemma move_never_raises_witness :
  exists r nxt gm',
    get_reward short_start DUCK = Ok r
    /\ (r = 0 \/ r = 1 \/ r = 2)
    /\ move short_start DUCK (Some short_course) = (Ok (r, nxt), gm').
Proof.
  apply (move_never_raises short_course).
  - repeat constructor.
  - apply reach_start. reflexivity.
Defined.

(** ** The loop of [main] *)

Lemma main_loop_None (lines : list string) (tr tm : Z) (gm : GameMap) :
  main_loop lines None tr tm gm = (Ok (None, tr, tm), gm).
Proof. by destruct lines. Qed.

Lemma move_reward (st : State) (a : Action) (gm : GameMap) (r : Z)
    (nxt : option State) (gm' : GameMap) :
  move st a gm = (Ok (r, nxt), gm') ->
  get_reward st a = Ok r /\ (nxt <> None -> r <> 0).
Proof.
  intros H.
  destruct (move_cases st a gm)
    as [(e & _ & Hm) | [(H0 & Hm) | [(r' & _ & _ & _ & Hm)
       | [(r' & look & _ & _ & _ & _ & Hm)
         | (r' & look & q & Hr & Hnz & _ & _ & Hm)]]]];
    rewrite Hm in H; try discriminate.
  - injection H as <- <- <-. by split.
  - injection H as <- _ _. by split.
Qed.

Lemma main_turn_inv (st : State) (line : string) (gm : GameMap) (r : Z)
    (nxt : option State) (gm' : GameMap) :
  main_turn st line gm = (Ok (r, nxt), gm') ->
  exists a, str_to_action line = Ok a /\ move st a gm = (Ok (r, nxt), gm').
Proof.
  unfold main_turn, bindM, lift.
  destruct (str_to_action line) as [a|e]; [|discriminate].
  intros H. by exists a.
Qed.

Lemma main_loop_step (line : string) (rest : list string) (st : State)
    (tr tm : Z) (gm : GameMap) (r : Z) (nxt : option State)
    (gm1 : GameMap) :
  main_turn st line gm = (Ok (r, nxt), gm1) ->
  main_loop (line :: rest) (Some st) tr tm gm
  = main_loop rest nxt (tr + r) (tm + 1) gm1.
Proof. intros H. cbn [main_loop]. unfold bindM. by rewrite H. Qed.

Lemma main_loop_counts (lines : list string) (state : option State)
    (tr tm : Z) (gm : GameMap) (fin : option State) (tr' tm' : Z)
    (gm' : GameMap) :
  main_loop lines state tr tm gm = (Ok (fin, tr', tm'), gm') ->
  0 <= tm' - tm <= Z.of_nat (length lines)
  /\ tr' - tr <= 2 * (tm' - tm)
  /\ match fin with
     | Some _ =>
         state <> None /\ tm' - tm = Z.of_nat (length lines)
         /\ tm' - tm <= tr' - tr
     | None =>
         (state = None -> tm' = tm /\ tr' = tr)
         /\ (state <> None -> 1 <= tm' - tm /\ tm' - tm - 1 <= tr' - tr)
     end.
Proof.
  revert state tr tm gm.
  induction lines as [|line rest IH]; intros state tr tm gm H.
  - destruct state as [st|]; cbn in H; injection H as <- <- <- <-;
      cbn [length]; repeat split; try lia; try done.
  - destruct state as [st|].
    2:{ cbn in H. injection H as <- <- <- <-.
        cbn [length]. repeat split; try lia; try done. }
    destruct (main_turn st line gm) as [[[r nxt]|e] gm1] eqn:Hturn.
    2:{ cbn [main_loop] in H. unfold bindM in H. rewrite Hturn in H.
        discriminate. }
    rewrite (main_loop_step _ _ _ _ _ _ _ _ _ Hturn) in H.
    destruct (main_turn_inv _ _ _ _ _ _ Hturn) as (a & _ & Hmove).
    destruct (move_reward _ _ _ _ _ _ Hmove) as [Hr Hnz].
    pose proof (get_reward_range _ _ _ Hr) as Hrange.
    specialize (IH _ _ _ _ H) as (Hn & Hup & Hfin).
    cbn [length]. split; [lia|]. split; [lia|].
    destruct fin as [st'|].
    + destruct Hfin as (Hsome & Hlen & Hlow).
      specialize (Hnz Hsome). repeat split; try done; lia.
    + destruct Hfin as [Hnone Hsome]. split; [done|]. intros _.
      destruct nxt as [st1|].
      * assert (Hs : Some st1 <> None) by done.
        specialize (Hnz Hs). specialize (Hsome Hs). lia.
      * destruct (Hnone eq_refl). lia.
Qed.

(** X11: The counters of [main]'s loop: the moves counted are the lines read;
    every move scores at most 2 and every move but the last at least 1.  So
    when the game has ended after n moves the total reward lies between
    n - 1 and 2n (and n >= 1), and while it is still on after n lines it
    lies between n and 2n. *)
Theorem main_loop_totals (lines : list string) (st : State) (gm : GameMap)
    (fin : option State) (total_reward total_moves : Z) (gm' : GameMap) :
  main_loop lines (Some st) 0 0 gm
  = (Ok (fin, total_reward, total_moves), gm') ->
  total_moves <= Z.of_nat (length lines)
  /\ total_reward <= 2 * total_moves
  /\ match fin with
     | None => 1 <= total_moves /\ total_moves - 1 <= total_reward
     | Some _ =>
         total_moves = Z.of_nat (length lines)
         /\ total_moves <= total_reward
     end.
Proof.
  intros H. destruct (main_loop_counts _ _ _ _ _ _ _ _ _ H) as (Hn & Hup & Hfin).
  split; [lia|]. split; [lia|].
  destruct fin as [st'|].
  - destruct Hfin as (_ & ? & ?). lia.
  - destruct Hfin as [_ Hsome]. assert (Hs : Some st <> None) by done.
    specialize (Hsome Hs). lia.
Qed.

Lemma main_loop_totals_witness :
  main_loop ["s"; "j"; "S"; "d"; "l"]%string (Some short_start) 0 0
    (Some short_course)
  = (Ok (None, 7, 4), Some [])
  /\ 4 - 1 <= 7 <= 2 * 4.
Proof.
  assert (H : main_loop ["s"; "j"; "S"; "d"; "l"]%string (Some short_start)
                0 0 (Some short_course)
              = (Ok (None, 7, 4), Some [])) by (vm_compute; reflexivity).
  split; [exact H|].
  destruct (main_loop_totals _ _ _ _ _ _ _ H) as (_ & Hup & Hone & Hlow).
  split; [exact Hlow | exact Hup].
Defined.

Lemma accepted_action (line : string) :
  In line accepted_lines -> exists a, str_to_action line = Ok a.
Proof.
  unfold accepted_lines. cbn [In].
  intros [<- | [<- | [<- | [<- | [<- | [<- | [<- | [<- | [<- | [<- | []]]]]]]]]]];
    eexists; reflexivity.
Qed.

Lemma main_loop_ends (lines : list string) (st : State) (gm : GameMap)
    (tr tm : Z) :
  wf_config st gm ->
  Forall (fun line => In line accepted_lines) lines ->
  (slices_ahead st gm < length lines)%nat ->
  exists tr' tm' gm',
    main_loop lines (Some st) tr tm gm = (Ok (None, tr', tm'), gm')
    /\ tm' - tm <= Z.of_nat (slices_ahead st gm) + 1.
Proof.
  revert st gm tr tm.
  induction lines as [|line rest IH]; intros st gm tr tm Hwf Hacc Hlen.
  { cbn in Hlen. lia. }
  inversion Hacc as [|? ? Hline Hrest]; subst.
  destruct (accepted_action line Hline) as [a Ha].
  destruct (move_wf st gm a Hwf) as (r & nxt & gm1 & _ & Hmove & _ & Hnxt).
  assert (Hturn : main_turn st line gm = (Ok (r, nxt), gm1)).
  { unfold main_turn, bindM, lift. by rewrite Ha. }
  rewrite (main_loop_step _ _ _ _ _ _ _ _ _ Hturn).
  destruct nxt as [st1|].
  - destruct Hnxt as (Hwf1 & _ & Hahead).
    destruct (IH st1 gm1 (tr + r) (tm + 1) Hwf1 Hrest)
      as (tr' & tm' & gm' & Hloop & Hn).
    { cbn [length] in Hlen. lia. }
    exists tr', tm', gm'. split; [exact Hloop | lia].
  - rewrite main_loop_None. eexists _, _, _. split; [reflexivity | lia].
Qed.

(** X12: [main] always finishes: on a map of at least two 3x3 grids, with
    accepted input lines and at least [len(game_map) + 2] of them, the loop
    ends without an exception after at most [len(game_map) + 2] moves, and
    the totals handed to [game_over] satisfy
    [total_moves - 1 <= total_reward <= 2 * total_moves]. *)
Theorem main_ends (game_map : list Grid) (lines : list string)
    (gm0 : GameMap) :
  all_3x3 game_map ->
  (2 <= length game_map)%nat ->
  Forall (fun line => In line accepted_lines) lines ->
  (length game_map + 2 <= length lines)%nat ->
  exists total_reward total_moves gm,
    main game_map lines gm0 = (Ok (None, total_reward, total_moves), gm)
    /\ 1 <= total_moves <= Z.of_nat (length game_map) + 2
    /\ total_moves - 1 <= total_reward <= 2 * total_moves.
Proof.
  intros Hmap Hlen Hacc Hlines.
  destruct game_map as [|g0 [|g1 rest]]; try (cbn in Hlen; lia).
  set (game_map := g0 :: g1 :: rest) in *.
  set (st0 := mkState [Some g0; Some g1] START_LOCATION).
  assert (Hstart : main_start game_map None = (Ok st0, Some game_map))
    by reflexivity.
  pose proof (main_start_wf _ _ _ Hmap Hstart) as Hwf.
  destruct (main_start_window _ _ _ Hstart) as (_ & Hahead & _).
  destruct (main_loop_ends lines st0 (Some game_map) 0 0 Hwf Hacc)
    as (tr & tm & gm & Hloop & Hn); [lia|].
  exists tr, tm, gm.
  assert (Hmain : main game_map lines gm0 = (Ok (None, tr, tm), gm)).
  { unfold main, bindM. exact Hloop. }
  split; [exact Hmain|].
  destruct (main_loop_counts _ _ _ _ _ _ _ _ _ Hloop) as (_ & Hup & _ & Hsome).
  assert (Hs : Some st0 <> None) by done. specialize (Hsome Hs).
  rewrite Hahead in Hn. cbn [length] in *. lia.
Qed.

Lemma main_ends_witness :
  exists total_reward total_moves gm,
    main short_course ["s"; "s"; "s"; "s"]%string None
    = (Ok (None, total_reward, total_moves), gm)
    /\ 1 <= total_moves <= Z.of_nat (length short_course) + 2
    /\ total_moves - 1 <= total_reward <= 2 * total_moves.
Proof.
  apply main_ends.
  - repeat constructor.
  - cbn. lia.
  - repeat constructor; cbn; tauto.
  - cbn. lia.
Defined.

(** X13: A map with fewer than two grids cannot be played: [main] installs it
    as [GAME_MAP] and fails with [IndexError] while building the first
    window, before any line is read. *)
Theorem main_short_map (game_map : list Grid) (lines : list string)
    (gm0 : GameMap) :
  (length game_map < 2)%nat ->
  main game_map lines gm0 = (Raise IndexError, Some game_map).
Proof.
  intros Hlen. destruct game_map as [|g0 [|g1 rest]]; try reflexivity.
  cbn in Hlen. lia.
Qed.

Lemma main_short_map_witness :
  main [grid_open] ["s"]%string None = (Raise IndexError, Some [grid_open]).
Proof. apply main_short_map. cbn. lia. Defined.

(** ** What the reward foretells *)

Lemma reward_zero_iff (a : Action) (p : Location) (res : Grid)
    (look : option Grid) :
  Spec.reward a p res look = 0
  <-> Spec.collides (Spec.candidate p a) res = true.
Proof.
  unfold Spec.reward. destruct (Spec.collides _ res); [done|].
  destruct look as [lg|]; [destruct (existsb _ _)|]; split; try done; lia.
Qed.

Lemma in_all_actions (a : Action) : In a Spec.all_actions.
Proof. destruct a; cbn; tauto. Qed.

Lemma candidate_in_frame (p : Location) (a : Action) :
  in_frame (Spec.candidate p a).
Proof. rewrite <- update_location_candidate. apply update_location_in_frame. Qed.

Lemma lateral_candidate (c : Z) (a : Action) :
  lateral a = true ->
  (1, snd (_update_location (1, c) a)) = Spec.candidate (1, c) a.
Proof.
  intros Hlat. rewrite update_location_candidate.
  destruct a; try discriminate; reflexivity.
Qed.

(** X14: For LEFT, RIGHT and STAY, on a map of 3x3 grids, the reward of a
    surviving move tells what comes next: it is 2 exactly when some action
    of the successor state does not crash, and 1 exactly when every action
    of the successor state crashes. *)
Theorem lateral_reward_foretells (st : State) (gm : GameMap) (a : Action)
    (r : Z) (st' : State) (gm' : GameMap) :
  wf_config st gm ->
  lateral a = true ->
  move st a gm = (Ok (r, Some st'), gm') ->
  (r = 1 \/ r = 2)
  /\ (r = 2 <-> exists a' r', get_reward st' a' = Ok r' /\ r' <> 0)
  /\ (r = 1 <-> forall a', get_reward st' a' = Ok 0).
Proof.
  intros Hwf Hlat Hmove.
  destruct Hwf
    as (res & look & q & c & Hg & -> & Hres & Hlook & Hq & Hdry & Hloc & Hc).
  destruct (step_inv _ _ _ _ _ _ Hmove)
    as (look' & q' & Hr & Hnz & Hl & [= <-] & -> & Hsome & ->).
  rewrite Hg in Hl. injection Hl as <-.
  destruct st as [w p]. cbn [grids player_location] in *. subst w p.
  destruct look as [lg|].
  2:{ rewrite (Hdry eq_refl) in Hsome. destruct Hsome; done. }
  rewrite (lateral_candidate c a Hlat).
  set (cand := Spec.candidate (1, c) a).
  assert (Hnext : forall a', get_reward (mkState [Some lg; hd_error q] cand) a'
                    = Ok (Spec.reward a' cand lg (hd_error q))).
  { intros a'. apply get_reward_with_spec;
      [reflexivity | apply candidate_in_frame | by apply Hlook |].
    intros g Hgq. destruct q as [|g' q]; [discriminate|].
    injection Hgq as ->. by inversion Hq. }
  assert (Hcrash : forall a', get_reward (mkState [Some lg; hd_error q] cand) a'
                     = Ok 0
                   <-> Spec.collides (Spec.candidate cand a') lg = true).
  { intros a'. rewrite Hnext, <- (reward_zero_iff a' cand lg (hd_error q)).
    split; congruence. }
  unfold get_reward in Hr.
  rewrite (get_reward_with_spec list_Action (1, c) a res (Some lg) [])
    in Hr; [|reflexivity | split; cbn [fst snd]; lia | done | done].
  injection Hr as Hr. unfold Spec.reward in Hr. fold cand in Hr.
  destruct (Spec.collides cand res); [congruence|].
  destruct (existsb _ Spec.all_actions) eqn:Hex; subst r.
  - apply existsb_exists in Hex as (m & _ & Hm).
    apply negb_true_iff in Hm.
    split; [by right|]. split; split; try done.
    + intros _. exists m, (Spec.reward m cand lg (hd_error q)).
      split; [apply Hnext|]. rewrite reward_zero_iff. congruence.
    + intros Hall. specialize (Hall m). apply Hcrash in Hall. congruence.
  - assert (Hall : forall m, Spec.collides (Spec.candidate cand m) lg = true).
    { intros m. destruct (Spec.collides (Spec.candidate cand m) lg) eqn:Hm;
        [done|].
      assert (existsb (fun m => negb (Spec.collides (Spec.candidate cand m) lg))
                Spec.all_actions = true); [|congruence].
      apply existsb_exists. exists m. split; [apply in_all_actions|].
      by rewrite Hm. }
    split; [by left|]. split; split; try done.
    + intros (a' & r' & Ha' & Hr'). exfalso. apply Hr'.
      rewrite (proj2 (Hcrash a') (Hall a')) in Ha'. congruence.
    + intros _ a'. apply Hcrash, Hall.
Qed.

Lemma lateral_reward_foretells_witness :
  get_reward (mkState [Some grid_full; None] (1, 1)) JUMP = Ok 0.
Proof.
  destruct (lateral_reward_foretells
              (mkState [Some grid_open; Some grid_full] (1, 1))
              (Some []) STAY 1
              (mkState [Some grid_full; None] (1, 1)) (Some []))
    as (_ & _ & H1).
  - exists grid_open, (Some grid_full), [], 1.
    repeat split; try reflexivity; try lia; try constructor.
    by intros lg [= <-].
  - reflexivity.
  - reflexivity.
  - apply H1. reflexivity.
Defined.

(** For JUMP and DUCK the reward can promise more than the successor state
    offers: the lookahead is taken from the jumping or ducking cell, while
    the successor state stands again. *)
Example jump_reward_then_all_crash :
  move (mkState [Some grid_open; Some grid_corner] (1, 1)) JUMP (Some [])
  = (Ok (2, Some (mkState [Some grid_corner; None] (1, 1))), Some [])
  /\ forall a', get_reward (mkState [Some grid_corner; None] (1, 1)) a' = Ok 0.
Proof. split; [reflexivity | by intros []]. Qed.

(** ** More obstacles, less reward *)

Lemma covers_collides (g g' : Grid) (p : Location) :
  is_3x3 g = true -> is_3x3 g' = true -> covers g g' -> in_frame p ->
  Spec.collides p g = true -> Spec.collides p g' = true.
Proof.
  intros Hg Hg' Hcov [Hr Hc]. destruct p as [row col]. cbn [fst snd] in *.
  assert (Hcell : forall r, 0 <= r <= 2 ->
            Spec.cell g r col = 1 -> Spec.cell g' r col = 1).
  { intros r Hr0 H1.
    pose proof (Hcov r col Hr0 Hc) as H.
    rewrite (grid_at_cell g r col Hg Hr0 Hc),
            (grid_at_cell g' r col Hg' Hr0 Hc) in H.
    rewrite H1 in H. specialize (H eq_refl). by injection H. }
  unfold Spec.collides. cbn [fst snd].
  rewrite !orb_true_iff, !andb_true_iff, !Z.eqb_eq.
  intros [H | [H1 H2]]; [left; by apply Hcell|].
  right. split; [done|]. apply Hcell; [lia | done].
Qed.

(** X15: Adding obstacles never raises the reward: if every obstacle of the
    resolution grid and of the lookahead grid is kept (and maybe more are
    added), the reward of the same action from the same cell is at most
    what it was. *)
Theorem more_obstacles_less_reward (p : Location) (a : Action)
    (res res' : Grid) (look look' : option Grid) :
  in_frame p ->
  is_3x3 res = true -> is_3x3 res' = true ->
  (forall lg, look = Some lg -> is_3x3 lg = true) ->
  (forall lg, look' = Some lg -> is_3x3 lg = true) ->
  covers res res' -> covers_slot look look' ->
  exists r r',
    get_reward (mkState [Some res; look] p) a = Ok r
    /\ get_reward (mkState [Some res'; look'] p) a = Ok r'
    /\ r' <= r.
Proof.
  intros Hp Hres Hres' Hlook Hlook' Hcov Hslot.
  exists (Spec.reward a p res look), (Spec.reward a p res' look').
  split; [by apply get_reward_with_spec|].
  split; [by apply get_reward_with_spec|].
  unfold Spec.reward. set (cand := Spec.candidate p a).
  pose proof (covers_collides res res' cand Hres Hres' Hcov
                (candidate_in_frame p a)) as Hmono.
  destruct (Spec.collides cand res).
  { by rewrite (Hmono eq_refl). }
  destruct (Spec.collides cand res').
  { destruct look as [lg|]; [destruct (existsb _ _)|]; lia. }
  destruct look as [lg|], look' as [lg'|]; cbn in Hslot; try done.
  destruct (existsb (fun m => negb (Spec.collides (Spec.candidate cand m) lg'))
              Spec.all_actions) eqn:Hex.
  2:{ destruct (existsb (fun m => negb (Spec.collides (Spec.candidate cand m)
                                          lg)) Spec.all_actions); lia. }
  destruct (existsb (fun m => negb (Spec.collides (Spec.candidate cand m) lg))
              Spec.all_actions) eqn:Hex'; [lia|].
  exfalso. apply existsb_exists in Hex as (m & Hin & Hm).
  apply negb_true_iff in Hm.
  assert (existsb (fun m => negb (Spec.collides (Spec.candidate cand m) lg))
            Spec.all_actions = true); [|congruence].
  apply existsb_exists. exists m. split; [done|].
  apply negb_true_iff.
  destruct (Spec.collides (Spec.candidate cand m) lg) eqn:Hc; [|done].
  rewrite (covers_collides lg lg' _ (Hlook lg eq_refl) (Hlook' lg' eq_refl)
             Hslot (candidate_in_frame cand m) Hc) in Hm.
  discriminate.
Qed.

Lemma more_obstacles_less_reward_witness :
  exists r r',
    get_reward (mkState [Some grid_open; Some grid_lane0] (1, 1)) STAY = Ok r
    /\ get_reward (mkState [Some grid_open; Some grid_full] (1, 1)) STAY
       = Ok r'
    /\ r' <= r.
Proof.
  apply more_obstacles_less_reward.
  - unfold in_frame. cbn. lia.
  - reflexivity.
  - reflexivity.
  - by intros lg [= <-].
  - by intros lg [= <-].
  - intros row col _ _ H. exact H.
  - intros row col Hr Hc _.
    destruct (three_cases row Hr) as [-> | [-> | ->]];
      destruct (three_cases col Hc) as [-> | [-> | ->]]; reflexivity.
Defined.
